(** * GL33CG @Track TCP gateway: protocol parser and server core

    A shallow embedding of [src/utils/protocolParser.ts] (class
    [ProtocolParser]) and of the connection and frame handling of
    [src/server.ts] (class [GL33CGTcpServer]), with the properties of the
    frame codec, the acknowledgment generator and the session registry.

    JavaScript strings are sequences of code units; they are modelled as
    [list ascii], one [ascii] per code unit, which covers every string whose
    code units are below 256 (the server only ever builds strings with
    [Buffer.toString("ascii")], whose code units are below 128). *)

From Stdlib Require Import Ascii String ZArith Lia.
From stdpp Require Import gmap strings list fin_maps.

Open Scope list_scope.

(** ** JavaScript string primitives *)

Module JS.

Abbreviation jsstring := (list ascii).

(** A string literal of the source, as a sequence of code units. *)
Definition js (s : string) : jsstring := list_ascii_of_string s.

(** WhiteSpace and LineTerminator code units of ECMAScript below 256:
    TAB, LF, VT, FF, CR, SP and NBSP. *)
Definition isWhiteSpace (c : ascii) : bool :=
  let n := nat_of_ascii c in
  (n =? 9) || (n =? 10) || (n =? 11) || (n =? 12) || (n =? 13)
  || (n =? 32) || (n =? 160).

Fixpoint trimStart (s : jsstring) : jsstring :=
  match s with
  | [] => []
  | c :: s' => if isWhiteSpace c then trimStart s' else s
  end.

Definition trimEnd (s : jsstring) : jsstring := rev (trimStart (rev s)).

(** [String.prototype.trim] *)
Definition trim (s : jsstring) : jsstring := trimEnd (trimStart s).

(** [s.startsWith(p)] *)
Fixpoint startsWith (s p : jsstring) {struct p} : bool :=
  match p with
  | [] => true
  | a :: p' =>
      match s with
      | [] => false
      | b :: s' => if Ascii.eqb a b then startsWith s' p' else false
      end
  end.

(** [s.endsWith(p)] *)
Definition endsWith (s p : jsstring) : bool := startsWith (rev s) (rev p).

(** [s.includes(p)] *)
Fixpoint includes (s p : jsstring) {struct s} : bool :=
  startsWith s p ||
  match s with
  | [] => false
  | _ :: s' => includes s' p
  end.

(** [s.substring(n)] and [s.substring(0, n)] *)
Definition substringFrom (s : jsstring) (n : nat) : jsstring := skipn n s.
Definition substringTo (s : jsstring) (n : nat) : jsstring := firstn n s.

(** [s.replace(pat, rep)] with a string pattern: only the first occurrence
    is replaced.  The replacement strings of the source contain no [$], so
    no replacement pattern is interpreted. *)
Fixpoint replace (s pat rep : jsstring) {struct s} : jsstring :=
  if startsWith s pat then rep ++ skipn (length pat) s
  else match s with
       | [] => []
       | c :: s' => c :: replace s' pat rep
       end.

(** [s.split(sep)] for a separator of one code unit: always at least one
    piece, [""] for the empty string. *)
Fixpoint split (s : jsstring) (sep : ascii) : list jsstring :=
  match s with
  | [] => [[]]
  | c :: s' =>
      if Ascii.eqb c sep then [] :: split s' sep
      else match split s' sep with
           | cur :: rest => (c :: cur) :: rest
           | [] => [[c]]
           end
  end.

(** Truthiness of a value of type [string | undefined]. *)
Definition truthy (o : option jsstring) : bool :=
  match o with
  | Some (_ :: _) => true
  | _ => false
  end.

(** [x || ""] for [x : string | undefined]. *)
Definition orEmpty (o : option jsstring) : jsstring :=
  match o with
  | Some s => s
  | None => []
  end.

End JS.

Import JS.

(** ** Protocol types ([src/types/protocol.ts]) *)

Inductive FrameType := ACK | RESP | BUFF | SACK.

(** The string value of each member of the [FrameType] enum. *)
Definition FrameType_value (t : FrameType) : jsstring :=
  match t with
  | ACK => js "+ACK"
  | RESP => js "+RESP"
  | BUFF => js "+BUFF"
  | SACK => js "+SACK"
  end.

Definition GTHBD : jsstring := js "GTHBD".

Definition TAIL_CHAR : ascii := "$"%char.
Definition FIELD_SEPARATOR : ascii := ","%char.

Record BaseMessage := mkBaseMessage {
  frameType : FrameType;
  commandWord : jsstring;
  fullProtocolVersion : jsstring;
  uniqueId : jsstring;
  deviceName : jsstring;
  sendTime : jsstring;
  countNumber : jsstring;
  rawMessage : jsstring
}.

Record ParseResult := mkParseResult {
  success : bool;
  message : option BaseMessage;
  error : option jsstring;
  needsAck : option bool;
  ackMessage : option jsstring
}.

Definition parseFailure (e : jsstring) : ParseResult :=
  {| success := false; message := None; error := Some e;
     needsAck := None; ackMessage := None |}.

Definition parseSuccess (m : BaseMessage) (ack : bool) (text : jsstring)
  : ParseResult :=
  {| success := true; message := Some m; error := None;
     needsAck := Some ack; ackMessage := Some text |}.

(** ** The parser ([src/utils/protocolParser.ts]) *)

(** Code units U+00E3 and U+00E1 of the error texts. *)
Definition a_tilde : ascii := ascii_of_nat 227.
Definition a_acute : ascii := ascii_of_nat 225.

Definition err_no_tail : jsstring :=
  js "Mensagem n" ++ [a_tilde] ++ js "o termina com $".
Definition err_unknown_frame : jsstring :=
  js "Tipo de frame n" ++ [a_tilde] ++ js "o reconhecido".
Definition err_ack : jsstring :=
  js "Mensagem ACK inv" ++ [a_acute] ++ js "lida".
Definition err_resp : jsstring :=
  js "Mensagem RESP inv" ++ [a_acute] ++ js "lida".
Definition err_unsupported (t : FrameType) : jsstring :=
  js "Tipo de frame n" ++ [a_tilde] ++ js "o suportado: " ++ FrameType_value t.

Definition generateSackMessage
  (commandWord protocolVersion countNumber : option jsstring) : jsstring :=
  let count := if truthy countNumber then orEmpty countNumber else js "0000" in
  if truthy commandWord && truthy protocolVersion then
    let version := substringTo (orEmpty protocolVersion) 6 in
    js "+SACK:" ++ orEmpty commandWord ++ js "," ++ version ++ js ","
      ++ count ++ js "$"
  else
    js "+SACK:" ++ count ++ js "$".

Definition identifyFrameType (message : jsstring) : option FrameType :=
  if startsWith message (js "+ACK:") then Some ACK
  else if startsWith message (js "+RESP:") then Some RESP
  else if startsWith message (js "+BUFF:") then Some BUFF
  else if startsWith message (js "+SACK:") then Some SACK
  else None.

Definition parseAckMessage (message : jsstring) : ParseResult :=
  let parts :=
    split (replace (substringFrom message 5) (js "$") []) FIELD_SEPARATOR in
  if length parts <? 6 then parseFailure err_ack
  else
    let parsedMessage :=
      {| frameType := ACK;
         commandWord := orEmpty (parts !! 0);
         fullProtocolVersion := orEmpty (parts !! 1);
         uniqueId := orEmpty (parts !! 2);
         deviceName := orEmpty (parts !! 3);
         sendTime := orEmpty (parts !! 4);
         countNumber := orEmpty (parts !! 5);
         rawMessage := message |} in
    if decide (commandWord parsedMessage = GTHBD) then
      parseSuccess parsedMessage true
        (generateSackMessage (Some (commandWord parsedMessage))
           (Some (fullProtocolVersion parsedMessage))
           (Some (countNumber parsedMessage)))
    else parseSuccess parsedMessage false [].

Definition parseRespMessage (message : jsstring) : ParseResult :=
  let parts :=
    split (replace (substringFrom message 6) (js "$") []) FIELD_SEPARATOR in
  if length parts <? 6 then parseFailure err_resp
  else
    let parsedMessage :=
      {| frameType := RESP;
         commandWord := orEmpty (parts !! 0);
         fullProtocolVersion := orEmpty (parts !! 1);
         uniqueId := orEmpty (parts !! 2);
         deviceName := orEmpty (parts !! 3);
         sendTime := orEmpty (parts !! (length parts - 2));
         countNumber := orEmpty (parts !! (length parts - 1));
         rawMessage := message |} in
    parseSuccess parsedMessage true
      (generateSackMessage None None (Some (countNumber parsedMessage))).

Definition parseBuffMessage (msg : jsstring) : ParseResult :=
  let respMessage := replace msg (js "+BUFF:") (js "+RESP:") in
  let result := parseRespMessage respMessage in
  match success result, message result with
  | true, Some m =>
      {| success := success result;
         message :=
           Some {| frameType := BUFF;
                   commandWord := commandWord m;
                   fullProtocolVersion := fullProtocolVersion m;
                   uniqueId := uniqueId m;
                   deviceName := deviceName m;
                   sendTime := sendTime m;
                   countNumber := countNumber m;
                   rawMessage := msg |};
         error := error result;
         needsAck := needsAck result;
         ackMessage := ackMessage result |}
  | _, _ => result
  end.

(** No function called inside the [try] block throws, so the [catch]
    branch of the source is never taken. *)
Definition parseMessage (rawMessage : jsstring) : ParseResult :=
  let cleanMessage := trim rawMessage in
  if negb (endsWith cleanMessage [TAIL_CHAR]) then parseFailure err_no_tail
  else
    match identifyFrameType cleanMessage with
    | None => parseFailure err_unknown_frame
    | Some ACK => parseAckMessage cleanMessage
    | Some RESP => parseRespMessage cleanMessage
    | Some BUFF => parseBuffMessage cleanMessage
    | Some SACK => parseFailure (err_unsupported SACK)
    end.

Definition isMessageComplete (data : jsstring) : bool :=
  includes data [TAIL_CHAR].

(** The trimmed part is truthy when it is not the empty string. *)
Definition extractMessages (buffer : jsstring) : list jsstring :=
  let parts := split buffer TAIL_CHAR in
  let parts :=
    if decide (last parts = Some []) then removelast parts else parts in
  flat_map
    (fun part =>
       if truthy (Some (trim part)) then [trim part ++ [TAIL_CHAR]] else [])
    parts.

Definition validateMessageFormat (message : jsstring) : bool :=
  let validStarts := [js "+ACK:"; js "+RESP:"; js "+BUFF:"; js "+SACK:"] in
  let hasValidStart :=
    existsb (fun start => startsWith message start) validStarts in
  let hasValidEnd := endsWith message [TAIL_CHAR] in
  let hasContent := 6 <? length message in
  hasValidStart && hasValidEnd && hasContent.

(** [null] is [None].  Nothing in the [try] block throws. *)
Definition extractImei (message : jsstring) : option jsstring :=
  if negb (validateMessageFormat message) then None
  else
    let parts :=
      if startsWith message (js "+ACK:") then
        Some (split (replace (substringFrom message 5) (js "$") [])
                FIELD_SEPARATOR)
      else if startsWith message (js "+RESP:")
              || startsWith message (js "+BUFF:") then
        Some (split (replace (substringFrom message 6) (js "$") [])
                FIELD_SEPARATOR)
      else None in
    match parts with
    | None => None
    | Some parts =>
        let imei := parts !! 2 in
        if truthy imei && truthy (Some (trim (orEmpty imei)))
        then Some (trim (orEmpty imei))
        else None
    end.

(** ** The server ([src/server.ts])

    The server is event driven.  Its state is the registry [clients], the
    sockets it has been handed, with the listeners registered on each, and
    the lines it has sent to the logger.  A handler is a function from
    state to state.  The [async] handlers are run to completion: the calls
    they await are calls to the data manager, an external collaborator
    that reads the session and never writes it, and everything
    [processMessage] does to the registry (the decode, the counter, the
    device identifier) comes before its first [await].  In the source the
    parts after an [await] (heartbeat time, acknowledgment, command log)
    of several frames of one read may run in another order; no statement
    below depends on the order of the log lines or of the writes of
    different frames.  [now] is the clock reading of [new Date()]. *)

(** The fields of [ServerConfig] read by the handlers below. *)
Record ServerConfig := mkServerConfig {
  enableSack : bool;
  maxConnections : Z
}.

(** What the server writes to a socket. *)
Inductive Written :=
| SackText (text : jsstring)
| HttpHealth (connections devices : nat).

Inductive Category :=
| Heartbeat | LocationReport | PowerFailure | BatteryLow | Temperature
| Jamming | Geofence | Unmapped.

Inductive LogEvent :=
| LogConnectionLimit (clientId : jsstring)
| LogConnection (clientId : jsstring)
| LogConnectionTimeout (clientId : jsstring)
| LogIncompleteMessage (clientId message : jsstring)
| LogProtocolError (clientId error message : jsstring)
| LogMessageReceived (clientId : jsstring) (m : BaseMessage)
| LogDeviceIdentification (clientId imei deviceName : jsstring)
| LogHeartbeat (clientId : jsstring)
| LogMessageProcessed (clientId : jsstring) (messageCount : nat)
| LogCommand (clientId : jsstring) (category : Category)
| LogSackSent (clientId ackMessage : jsstring)
| LogDisconnection (clientId : jsstring) (messageCount : nat)
| LogClientError (clientId : jsstring).

Inductive SocketEvent := EvData | EvTimeout | EvError | EvClose.

(** The closures the server registers on a socket. *)
Inductive Handler :=
| InitialDataHandler
| IdentifyTimeout
| ConnectionError
| ConnectionClose
| ClientData
| ClientClose
| ClientError
| ClientTimeout.

Record Listener := mkListener {
  event : SocketEvent;
  once : bool;
  handler : Handler
}.

Global Instance SocketEvent_eq_dec : EqDecision SocketEvent.
Proof. solve_decision. Defined.

Global Instance Handler_eq_dec : EqDecision Handler.
Proof. solve_decision. Defined.

(** A socket: [remote] is the text [remoteAddress:remotePort], and
    [isHttpConnection] the variable of that name captured by the closures
    of [handleConnection]. *)
Record Socket := mkSocket {
  remote : jsstring;
  listeners : list Listener;
  isHttpConnection : bool;
  writable : bool;
  destroyed : bool;
  written : list Written
}.

Module Client.
Record t := mk {
  socket : nat;
  imei : option jsstring;
  deviceName : option jsstring;
  lastHeartbeat : Z;
  connected : Z;
  messageCount : nat;
  isAlive : bool
}.
End Client.

Abbreviation ConnectedClient := Client.t.

Record Server := mkServer {
  clients : gmap jsstring ConnectedClient;
  sockets : gmap nat Socket;
  log : list LogEvent
}.

(** [data.toString("ascii")]: the high bit of every byte is cleared. *)
Definition toStringAscii (data : list ascii) : jsstring :=
  map (fun b : ascii =>
         match b with
         | Ascii b0 b1 b2 b3 b4 b5 b6 _ => Ascii b0 b1 b2 b3 b4 b5 b6 false
         end) data.

(** *** State updates *)

Definition addLog (e : LogEvent) (st : Server) : Server :=
  {| clients := clients st; sockets := sockets st; log := log st ++ [e] |}.

Definition updSocket (sock : nat) (f : Socket -> Socket) (st : Server) : Server :=
  {| clients := clients st; sockets := alter f sock (sockets st);
     log := log st |}.

Definition updClient (clientId : jsstring)
  (f : ConnectedClient -> ConnectedClient) (st : Server) : Server :=
  {| clients := alter f clientId (clients st); sockets := sockets st;
     log := log st |}.

Definition setClient (clientId : jsstring) (c : ConnectedClient) (st : Server)
  : Server :=
  {| clients := <[clientId := c]> (clients st); sockets := sockets st;
     log := log st |}.

Definition deleteClient (clientId : jsstring) (st : Server) : Server :=
  {| clients := delete clientId (clients st); sockets := sockets st;
     log := log st |}.

(** [socket.on] and [socket.once] *)
Definition addListener (sock : nat) (l : Listener) : Server -> Server :=
  updSocket sock (fun s =>
    mkSocket (remote s) (listeners s ++ [l]) (isHttpConnection s)
             (writable s) (destroyed s) (written s)).

(** [socket.removeListener(event, handler)] *)
Definition removeListener (sock : nat) (ev : SocketEvent) (h : Handler)
  : Server -> Server :=
  updSocket sock (fun s =>
    mkSocket (remote s)
             (filter (fun l : Listener => ~ (event l = ev /\ handler l = h))
                (listeners s))
             (isHttpConnection s) (writable s) (destroyed s) (written s)).

Definition setHttpConnection (sock : nat) : Server -> Server :=
  updSocket sock (fun s =>
    mkSocket (remote s) (listeners s) true (writable s) (destroyed s)
             (written s)).

(** [socket.write] *)
Definition socketWrite (sock : nat) (w : Written) : Server -> Server :=
  updSocket sock (fun s =>
    mkSocket (remote s) (listeners s) (isHttpConnection s) (writable s)
             (destroyed s) (written s ++ [w])).

(** [socket.end()]: the writable side is closed. *)
Definition socketEnd (sock : nat) : Server -> Server :=
  updSocket sock (fun s =>
    mkSocket (remote s) (listeners s) (isHttpConnection s) false
             (destroyed s) (written s)).

(** [socket.destroy()] *)
Definition socketDestroy (sock : nat) : Server -> Server :=
  updSocket sock (fun s =>
    mkSocket (remote s) (listeners s) (isHttpConnection s) false true
             (written s)).

(** *** Handlers *)

Definition isHttpHealthCheck (data : jsstring) : bool :=
  includes data (js "HTTP/") || includes data (js "GET ")
  || includes data (js "HEAD ") || includes data (js "POST ")
  || includes data (js "User-Agent:").

(** [totalConnections] and [identifiedDevices] of [getStats]. *)
Definition getStats (st : Server) : nat * nat :=
  (size (clients st),
   length (filter (fun kc : jsstring * ConnectedClient =>
                     truthy (Client.imei kc.2) = true)
             (map_to_list (clients st)))).

Definition commandCategory (commandWord : jsstring) : Category :=
  if decide (commandWord = js "GTHBD") then Heartbeat
  else if decide (commandWord = js "GTFRI") then LocationReport
  else if decide (commandWord = js "GTPFA") then PowerFailure
  else if decide (commandWord = js "GTBPL") then BatteryLow
  else if decide (commandWord = js "GTTEM") then Temperature
  else if decide (commandWord = js "GTJDS") then Jamming
  else if decide (commandWord = js "GTGEO") then Geofence
  else Unmapped.

Section Handlers.

Variable config : ServerConfig.

(** The heartbeat case of the [switch] logs nothing. *)
Definition handleSpecificCommand (clientId : jsstring) (m : BaseMessage)
  (st : Server) : Server :=
  match commandCategory (commandWord m) with
  | Heartbeat => st
  | category => addLog (LogCommand clientId category) st
  end.

Definition sendAckMessage (clientId ackMessage : jsstring) (st : Server)
  : Server :=
  match clients st !! clientId with
  | None => st
  | Some client =>
      match sockets st !! Client.socket client with
      | Some s =>
          if writable s then
            addLog (LogSackSent clientId ackMessage)
              (socketWrite (Client.socket client) (SackText ackMessage) st)
          else st
      | None => st
      end
  end.

Definition processMessage (now : Z) (clientId : jsstring) (msg : jsstring)
  (st : Server) : Server :=
  match clients st !! clientId with
  | None => st
  | Some client =>
      let parseResult := parseMessage msg in
      if negb (success parseResult) then
        addLog
          (LogProtocolError clientId
             (if truthy (error parseResult) then orEmpty (error parseResult)
              else js "Unknown parsing error")
             msg)
          st
      else
        match message parseResult with
        | None => st
        | Some parsedMessage =>
            let st :=
              updClient clientId (fun c =>
                Client.mk (Client.socket c) (Client.imei c)
                  (Client.deviceName c) (Client.lastHeartbeat c)
                  (Client.connected c) (S (Client.messageCount c))
                  (Client.isAlive c)) st in
            let st := addLog (LogMessageReceived clientId parsedMessage) st in
            let st :=
              if truthy (Some (uniqueId parsedMessage))
                 && negb (truthy (Client.imei client))
              then
                addLog
                  (LogDeviceIdentification clientId (uniqueId parsedMessage)
                     (deviceName parsedMessage))
                  (updClient clientId (fun c =>
                     Client.mk (Client.socket c)
                       (Some (uniqueId parsedMessage))
                       (Some (deviceName parsedMessage))
                       (Client.lastHeartbeat c) (Client.connected c)
                       (Client.messageCount c) (Client.isAlive c)) st)
              else st in
            let st :=
              match frameType parsedMessage with
              | ACK =>
                  if decide (commandWord parsedMessage = js "GTHBD") then
                    addLog (LogHeartbeat clientId)
                      (updClient clientId (fun c =>
                         Client.mk (Client.socket c) (Client.imei c)
                           (Client.deviceName c) now (Client.connected c)
                           (Client.messageCount c) (Client.isAlive c)) st)
                  else st
              | _ => st
              end in
            let st :=
              addLog
                (LogMessageProcessed clientId (S (Client.messageCount client)))
                st in
            let st :=
              if enableSack config
                 && match needsAck parseResult with
                    | Some true => true
                    | _ => false
                    end
                 && truthy (ackMessage parseResult)
              then sendAckMessage clientId (orEmpty (ackMessage parseResult)) st
              else st in
            handleSpecificCommand clientId parsedMessage st
        end
  end.

(** The loop over the extracted messages. *)
Definition processMessages (now : Z) (clientId : jsstring)
  (messages : list jsstring) (st : Server) : Server :=
  foldl (fun st m => processMessage now clientId m st) st messages.

Definition handleClientData (now : Z) (clientId : jsstring)
  (data : list ascii) (st : Server) : Server :=
  match clients st !! clientId with
  | None => st
  | Some client =>
      let msg := trim (toStringAscii data) in
      if negb (isMessageComplete msg) then
        addLog (LogIncompleteMessage clientId msg) st
      else
        processMessages now clientId (extractMessages msg) st
  end.

Definition setupTcpClient (now : Z) (clientId : jsstring) (sock : nat)
  (st : Server) : Server :=
  let st := addLog (LogConnection clientId) st in
  let client := Client.mk sock None None now now 0 true in
  let st := setClient clientId client st in
  let st := addListener sock (mkListener EvData false ClientData) st in
  let st := addListener sock (mkListener EvClose false ClientClose) st in
  let st := addListener sock (mkListener EvError false ClientError) st in
  addListener sock (mkListener EvTimeout true ClientTimeout) st.

Definition handleClientDisconnect (clientId : jsstring) (st : Server)
  : Server :=
  let st :=
    match clients st !! clientId with
    | Some client =>
        addLog (LogDisconnection clientId (Client.messageCount client)) st
    | None => st
    end in
  deleteClient clientId st.

Definition handleClientError (clientId : jsstring) (st : Server) : Server :=
  deleteClient clientId (addLog (LogClientError clientId) st).

Definition initialDataHandler (now : Z) (sock : nat) (clientId : jsstring)
  (data : list ascii) (st : Server) : Server :=
  let dataStr := toStringAscii data in
  if isHttpHealthCheck dataStr then
    let st := setHttpConnection sock st in
    let stats := getStats st in
    let st := socketWrite sock (HttpHealth stats.1 stats.2) st in
    socketEnd sock st
  else
    let st := removeListener sock EvData InitialDataHandler st in
    let st := setupTcpClient now clientId sock st in
    handleClientData now clientId data st.

Definition handleConnection (sock : nat) (st : Server) : Server :=
  match sockets st !! sock with
  | None => st
  | Some s =>
      let clientId := remote s in
      if (maxConnections config <=? Z.of_nat (size (clients st)))%Z then
        socketEnd sock (addLog (LogConnectionLimit clientId) st)
      else
        let st :=
          addListener sock (mkListener EvData true InitialDataHandler) st in
        let st :=
          addListener sock (mkListener EvTimeout true IdentifyTimeout) st in
        let st :=
          addListener sock (mkListener EvError false ConnectionError) st in
        addListener sock (mkListener EvClose false ConnectionClose) st
  end.

(** The body of each registered closure; [clientId] is the identifier the
    closure captured, the [remote] text of its socket. *)
Definition runHandler (now : Z) (sock : nat) (data : list ascii)
  (h : Handler) (st : Server) : Server :=
  match sockets st !! sock with
  | None => st
  | Some s =>
      let clientId := remote s in
      match h with
      | InitialDataHandler => initialDataHandler now sock clientId data st
      | IdentifyTimeout =>
          if negb (isHttpConnection s)
             && negb (bool_decide (is_Some (clients st !! clientId)))
          then socketDestroy sock st else st
      | ConnectionError =>
          if negb (isHttpConnection s) then handleClientError clientId st
          else st
      | ConnectionClose =>
          if negb (isHttpConnection s)
             && bool_decide (is_Some (clients st !! clientId))
          then handleClientDisconnect clientId st else st
      | ClientData => handleClientData now clientId data st
      | ClientClose => handleClientDisconnect clientId st
      | ClientError => handleClientError clientId st
      | ClientTimeout =>
          socketDestroy sock (addLog (LogConnectionTimeout clientId) st)
      end
  end.

(** [socket.emit(ev, data)]: the listeners registered for [ev] at the time
    of the call run in registration order; a [once] listener is removed
    before it runs. *)
Definition emit (now : Z) (sock : nat) (ev : SocketEvent) (data : list ascii)
  (st : Server) : Server :=
  match sockets st !! sock with
  | None => st
  | Some s =>
      let called := filter (fun l : Listener => event l = ev) (listeners s) in
      let st :=
        updSocket sock (fun s =>
          mkSocket (remote s)
            (filter (fun l : Listener => ~ (event l = ev /\ once l = true))
               (listeners s))
            (isHttpConnection s) (writable s) (destroyed s) (written s)) st in
      foldl (fun st l => runHandler now sock data (handler l) st) st called
  end.

(** A socket as the server receives it with the [connection] event. *)
Definition newSocket (remote : jsstring) : Socket :=
  mkSocket remote [] false true false [].

Inductive Event :=
| Connection (sock : nat) (remote : jsstring)
| SocketEmit (sock : nat) (ev : SocketEvent) (data : list ascii).

Definition eventSocket (e : Event) : nat :=
  match e with
  | Connection sock _ => sock
  | SocketEmit sock _ _ => sock
  end.

Definition step (now : Z) (e : Event) (st : Server) : Server :=
  match e with
  | Connection sock remote =>
      handleConnection sock
        {| clients := clients st;
           sockets := <[sock := newSocket remote]> (sockets st);
           log := log st |}
  | SocketEmit sock ev data => emit now sock ev data st
  end.

Definition run (trace : list (Z * Event)) (st : Server) : Server :=
  foldl (fun st te => step te.1 te.2 st) st trace.

End Handlers.

(** [stop]: every session's socket is destroyed and the registry is
    cleared.  The sessions are visited in the order of the registry's
    listing; destroying sockets in another order gives the same state.  The
    log lines, [server.close] and [logger.flush] are left out. *)
Definition stop (st : Server) : Server :=
  let st :=
    foldr (fun (kc : jsstring * ConnectedClient) st =>
             socketDestroy (Client.socket kc.2) st)
          st (map_to_list (clients st)) in
  {| clients := ∅; sockets := sockets st; log := log st |}.

(** ** Notions used in the statements *)

(** A string is trimmed when neither end is white space. *)
Definition trimmed (s : jsstring) : Prop :=
  trimStart s = s /\ trimStart (rev s) = rev s.

(** The sequence number echoed in an acknowledgment: ["0000"] when the
    decoded one is empty. *)
Definition seqOrDefault (f : BaseMessage) : jsstring :=
  match countNumber f with
  | [] => js "0000"
  | q => q
  end.

(** Whether a decoded frame is acknowledged, as a function of the frame. *)
Definition ackRequired (f : BaseMessage) : bool :=
  match frameType f with
  | ACK => bool_decide (commandWord f = GTHBD)
  | RESP | BUFF => true
  | SACK => false
  end.

(** The acknowledgment text of a decoded frame, as a function of the
    frame: the long form echoes the command word and the first six code
    units of the protocol version, and is used for an Ack frame whose
    protocol version is not empty. *)
Definition ackText (f : BaseMessage) : jsstring :=
  match frameType f, fullProtocolVersion f with
  | ACK, _ :: _ =>
      js "+SACK:" ++ commandWord f ++ js "," ++ firstn 6 (fullProtocolVersion f)
        ++ js "," ++ seqOrDefault f ++ js "$"
  | _, _ => js "+SACK:" ++ seqOrDefault f ++ js "$"
  end.

(** A Resp-decoder result turned back into a Buff result: the frame type
    and the raw text are overridden when the result is a success. *)
Definition asBuff (original : jsstring) (r : ParseResult) : ParseResult :=
  match success r, message r with
  | true, Some m =>
      {| success := success r;
         message :=
           Some {| frameType := BUFF;
                   commandWord := commandWord m;
                   fullProtocolVersion := fullProtocolVersion m;
                   uniqueId := uniqueId m;
                   deviceName := deviceName m;
                   sendTime := sendTime m;
                   countNumber := countNumber m;
                   rawMessage := original |};
         error := error r;
         needsAck := needsAck r;
         ackMessage := ackMessage r |}
  | _, _ => r
  end.

(** The buffer made of the given segments, each followed by the
    terminator. *)
Definition framesBuffer (segs : list jsstring) : jsstring :=
  concat (map (fun s => s ++ [TAIL_CHAR]) segs).

(** Number of terminators in a text. *)
Definition countTail (s : jsstring) : nat :=
  length (filter (fun c => c = TAIL_CHAR) s).

(** The messages kept out of the pieces of a buffer. *)
Definition keepParts (parts : list jsstring) : list jsstring :=
  flat_map
    (fun part =>
       if truthy (Some (trim part)) then [trim part ++ [TAIL_CHAR]] else [])
    parts.

(** Shape of every message built from a piece that holds no terminator. *)
Definition wellFramed (m : jsstring) : Prop :=
  endsWith m [TAIL_CHAR] = true /\
  (exists body, m = body ++ [TAIL_CHAR] /\ (TAIL_CHAR ∉ body) /\ body <> []) /\
  countTail m = 1 /\
  trim m = m /\
  m <> [] /\ m <> [TAIL_CHAR].

(** Two states with the same registry and the same sockets: they differ at
    most in what was logged. *)
Definition sameCore (st1 st2 : Server) : Prop :=
  clients st1 = clients st2 /\ sockets st1 = sockets st2.

(** The session after a successfully decoded frame [m]. *)
Definition clientAfter (now : Z) (c : ConnectedClient) (m : BaseMessage)
  : ConnectedClient :=
  let identify := truthy (Some (uniqueId m)) && negb (truthy (Client.imei c)) in
  Client.mk (Client.socket c)
    (if identify then Some (uniqueId m) else Client.imei c)
    (if identify then Some (deviceName m) else Client.deviceName c)
    (match frameType m with
     | ACK => if decide (commandWord m = js "GTHBD") then now
              else Client.lastHeartbeat c
     | _ => Client.lastHeartbeat c
     end)
    (Client.connected c) (S (Client.messageCount c)) (Client.isAlive c).

(** Successive reads on one connection, each with its clock reading. *)
Definition handleReads (config : ServerConfig) (clientId : jsstring)
  (reads : list (Z * list ascii)) (st : Server) : Server :=
  foldl (fun st r => handleClientData config r.1 clientId r.2 st) st reads.

(** A registry with one session, on socket 1, with no device identifier
    yet, and the acknowledgments switched on. *)
Definition sampleConfig : ServerConfig := mkServerConfig true 1000.

Definition sampleClientId : jsstring := js "10.0.0.7:50123".

Definition sampleState : Server :=
  {| clients := {[ sampleClientId := Client.mk 1 None None 0 0 0 true ]};
     sockets := {[ 1 := mkSocket sampleClientId [] false true false [] ]};
     log := [] |}.

Definition heartbeat29 : jsstring :=
  js "+ACK:GTHBD,80200A0303,865585040014007,GL33CG,20190517022529,0029$".

Definition identifiedClient : ConnectedClient :=
  Client.mk 1 (Some (js "865585040014007")) (Some (js "GL33CG")) 0 0 1 true.

Definition identifiedState : Server :=
  {| clients := {[ sampleClientId := identifiedClient ]};
     sockets := sockets sampleState;
     log := [] |}.

(** The decode failures reported to the logger, oldest first. *)
Definition protocolErrors (l : list LogEvent) : list (jsstring * jsstring) :=
  flat_map
    (fun e =>
       match e with
       | LogProtocolError _ error msg => [(error, msg)]
       | _ => []
       end) l.

(** The socket [sock] is in state [s0] and no session is bound to it. *)
Definition untouched (sock : nat) (s0 : Socket) (st : Server) : Prop :=
  sockets st !! sock = Some s0 /\
  forall id c, clients st !! id = Some c -> Client.socket c <> sock.

(** The socket of a refused connection: ended, with no listener and nothing
    written. *)
Definition refusedSocket (remote : jsstring) : Socket :=
  mkSocket remote [] false false false [].

Definition fullConfig : ServerConfig := mkServerConfig true 1.

(** Length of the type prefix of a frame, colon included. *)
Definition prefixLength (k : FrameType) : nat :=
  match k with
  | ACK => 5
  | _ => 6
  end.

(** The comma fields the decoders work on: the text after its type prefix,
    less its first [$]. *)
Definition bodyFields (k : FrameType) (text : jsstring) : list jsstring :=
  split (replace (substringFrom text (prefixLength k)) (js "$") [])
    FIELD_SEPARATOR.

(** Number of messages of a list that decode. *)
Definition countDecoded (messages : list jsstring) : nat :=
  length (filter (fun m => success (parseMessage m) = true) messages).

(** The state [processMessage] has built when it reaches the
    acknowledgment, for a frame [m] decoded on the session [client]. *)
Definition beforeAck (now : Z) (clientId : jsstring) (client : ConnectedClient)
  (m : BaseMessage) (st : Server) : Server :=
  {| clients := <[clientId := clientAfter now client m]> (clients st);
     sockets := sockets st;
     log :=
       log st ++ [LogMessageReceived clientId m]
         ++ (if truthy (Some (uniqueId m)) && negb (truthy (Client.imei client))
             then [LogDeviceIdentification clientId (uniqueId m) (deviceName m)]
             else [])
         ++ (match frameType m with
             | ACK => if decide (commandWord m = js "GTHBD")
                      then [LogHeartbeat clientId] else []
             | _ => []
             end)
         ++ [LogMessageProcessed clientId (S (Client.messageCount client))] |}.

(** The listeners [handleConnection] leaves on a socket once its first read
    has been taken, and those [setupTcpClient] adds. *)
Definition connectionListeners : list Listener :=
  [mkListener EvTimeout true IdentifyTimeout;
   mkListener EvError false ConnectionError;
   mkListener EvClose false ConnectionClose].

Definition clientListeners : list Listener :=
  [mkListener EvData false ClientData;
   mkListener EvClose false ClientClose;
   mkListener EvError false ClientError;
   mkListener EvTimeout true ClientTimeout].

(** A socket accepted by [handleConnection] that has not sent anything. *)
Definition acceptedSocket (remote : jsstring) : Socket :=
  mkSocket remote
    (mkListener EvData true InitialDataHandler :: connectionListeners)
    false true false [].

(** The socket of a session, with what has been written to it. *)
Definition establishedSocket (remote : jsstring) (w : list Written) : Socket :=
  mkSocket remote (connectionListeners ++ clientListeners) false true false w.

(** A socket answered as a health check. *)
Definition healthSocket (remote : jsstring) (ls : list Listener)
  (w : list Written) : Socket :=
  mkSocket remote ls true false false w.

(** The state right after [setupTcpClient] on an accepted socket. *)
Definition sessionOpened (now : Z) (sock : nat) (remote : jsstring)
  (st : Server) : Server :=
  {| clients := <[remote := Client.mk sock None None now now 0 true]> (clients st);
     sockets := <[sock := establishedSocket remote []]> (sockets st);
     log := log st ++ [LogConnection remote] |}.

(** A session is either not identified, with neither identifier nor name,
    or identified by a non-empty identifier, with a name. *)
Definition identityWf (c : ConnectedClient) : Prop :=
  (Client.imei c = None /\ Client.deviceName c = None) \/
  (exists i n, Client.imei c = Some i /\ i <> [] /\
               Client.deviceName c = Some n).

(** The socket [s] with [w] appended to what was written to it. *)
Definition withWritten (s : Socket) (w : list Written) : Socket :=
  mkSocket (remote s) (listeners s) (isHttpConnection s) (writable s)
    (destroyed s) (written s ++ w).

(** The socket [sock] was answered as a health check: it is flagged as an
    HTTP connection, ended, holds its one response, and only listeners of
    [handleConnection] are left on it. *)
Definition answered (sock : nat) (remote : jsstring) (w : list Written)
  (st : Server) : Prop :=
  exists ls,
    sockets st !! sock = Some (healthSocket remote ls w) /\
    ls ⊆ connectionListeners.

(** Every session of the registry satisfies [identityWf]. *)
Definition sessionsWf (st : Server) : Prop :=
  forall id c, clients st !! id = Some c -> identityWf c.

(** A socket after [socket.destroy()]. *)
Definition destroyedSocket (s : Socket) : Socket :=
  mkSocket (remote s) (listeners s) (isHttpConnection s) false true
    (written s).

(** A registry with one identified session whose socket carries the
    listeners of a session, and a second socket that was accepted and has
    sent nothing. *)
Definition establishedState : Server :=
  {| clients := {[ sampleClientId := identifiedClient ]};
     sockets := <[2 := acceptedSocket (js "10.0.0.8:40000")]>
                  {[ 1 := establishedSocket sampleClientId [] ]};
     log := [] |}.

(** ** Sample runs of the parser *)

Example parse_hbd :
  parseMessage
    (js "+ACK:GTHBD,80200A0303,865585040014007,GL33CG,20190517022529,0029$")
  = parseSuccess
      {| frameType := ACK; commandWord := js "GTHBD";
         fullProtocolVersion := js "80200A0303";
         uniqueId := js "865585040014007"; deviceName := js "GL33CG";
         sendTime := js "20190517022529"; countNumber := js "0029";
         rawMessage :=
           js "+ACK:GTHBD,80200A0303,865585040014007,GL33CG,20190517022529,0029$" |}
      true (js "+SACK:GTHBD,80200A,0029$").
Proof. vm_compute. reflexivity. Qed.

Example extract_two :
  extractMessages (js "+ACK:a$ +ACK:b$") = [js "+ACK:a$"; js "+ACK:b$"].
Proof. vm_compute. reflexivity. Qed.

(** ** Facts about the string primitives *)

Section StringFacts.

Implicit Types (s p t : jsstring) (c : ascii).

Lemma eqb_ascii_refl c : Ascii.eqb c c = true.
Proof. apply Ascii.eqb_eq. reflexivity. Qed.

Lemma startsWith_app s p : startsWith (p ++ s) p = true.
Proof.
  induction p as [|a p IH]; simpl; [reflexivity|].
  rewrite eqb_ascii_refl. exact IH.
Qed.

Lemma startsWith_inv s p : startsWith s p = true -> s = p ++ skipn (length p) s.
Proof.
  revert s. induction p as [|a p IH]; intros s H; simpl in *; [reflexivity|].
  destruct s as [|b s]; [discriminate|].
  destruct (Ascii.eqb a b) eqn:E; [|discriminate].
  apply Ascii.eqb_eq in E. subst b. simpl. f_equal. apply IH, H.
Qed.

Lemma endsWith_snoc s c : endsWith (s ++ [c]) [c] = true.
Proof.
  unfold endsWith. rewrite rev_app_distr. simpl.
  rewrite eqb_ascii_refl. reflexivity.
Qed.

Lemma endsWith_inv s c : endsWith s [c] = true -> exists s', s = s' ++ [c].
Proof.
  unfold endsWith. simpl. intros H.
  destruct (rev s) as [|b r] eqn:E; [discriminate|].
  destruct (Ascii.eqb c b) eqn:Ec; [|discriminate].
  apply Ascii.eqb_eq in Ec. subst b.
  exists (rev r). rewrite <- (rev_involutive s), E. reflexivity.
Qed.

Lemma replace_prefix s p rep : replace (p ++ s) p rep = rep ++ s.
Proof.
  destruct (p ++ s) as [|c u] eqn:E; simpl.
  - destruct p; [|discriminate]. simpl in *. subst s. reflexivity.
  - rewrite <- E, startsWith_app.
    rewrite skipn_app, skipn_all, Nat.sub_diag. reflexivity.
Qed.

(** Removing the first [$] of a text whose only [$] is its last code unit
    strips exactly the terminator. *)
Lemma replace_tail s :
  TAIL_CHAR ∉ s -> replace (s ++ [TAIL_CHAR]) (js "$") [] = s.
Proof.
  induction s as [|c s IH]; intros H; [reflexivity|].
  apply not_elem_of_cons in H as [Hc Hs].
  cbn [app replace js list_ascii_of_string startsWith].
  destruct (Ascii.eqb "$" c) eqn:E.
  - apply Ascii.eqb_eq in E. exfalso. apply Hc. exact E.
  - f_equal. apply IH, Hs.
Qed.

(** *** Trimming *)

Lemma trimStart_head s c t : trimStart s = c :: t -> isWhiteSpace c = false.
Proof.
  induction s as [|a s IH]; simpl; [discriminate|].
  destruct (isWhiteSpace a) eqn:E; [exact IH|].
  intros [= -> _]. exact E.
Qed.

Lemma trimStart_id c s : isWhiteSpace c = false -> trimStart (c :: s) = c :: s.
Proof. intros H. simpl. rewrite H. reflexivity. Qed.

Lemma trimStart_idem s : trimStart (trimStart s) = trimStart s.
Proof.
  destruct (trimStart s) as [|c t] eqn:E; [reflexivity|].
  apply trimStart_id. eapply trimStart_head, E.
Qed.

Lemma trimStart_app s t :
  trimStart (s ++ t) =
  match trimStart s with [] => trimStart t | _ => trimStart s ++ t end.
Proof.
  induction s as [|a s IH]; simpl.
  - reflexivity.
  - destruct (isWhiteSpace a); [exact IH|reflexivity].
Qed.

Lemma trimmed_trim s : trimmed s -> trim s = s.
Proof.
  intros [H1 H2]. unfold trim, trimEnd. rewrite H1, H2. apply rev_involutive.
Qed.

Lemma trim_trimmed s : trimmed (trim s).
Proof.
  unfold trimmed, trim, trimEnd. rewrite rev_involutive, trimStart_idem.
  split; [|reflexivity].
  set (u := trimStart s).
  destruct (rev (trimStart (rev u))) as [|c r] eqn:E; [reflexivity|].
  apply trimStart_id.
  assert (Hrev : exists q, rev u = q ++ trimStart (rev u)).
  { generalize (rev u). intros l. induction l as [|a l [q IH]]; simpl.
    - exists []. reflexivity.
    - destruct (isWhiteSpace a).
      + exists (a :: q). simpl. f_equal. exact IH.
      + exists []. reflexivity. }
  destruct Hrev as [q Hq].
  apply (f_equal (@rev ascii)) in Hq.
  rewrite rev_involutive, rev_app_distr, E in Hq. simpl in Hq.
  subst u. eapply trimStart_head. exact Hq.
Qed.

Lemma trim_idem s : trim (trim s) = trim s.
Proof. apply trimmed_trim, trim_trimmed. Qed.

(** A text that starts and ends with code units that are not white space
    is left alone by [trim]. *)
Lemma trim_frame c s d :
  isWhiteSpace c = false -> isWhiteSpace d = false ->
  trim (c :: s ++ [d]) = c :: s ++ [d].
Proof.
  intros Hc Hd. apply trimmed_trim. split.
  - apply trimStart_id, Hc.
  - change (c :: s ++ [d]) with ((c :: s) ++ [d]).
    rewrite rev_app_distr. simpl rev at 1. apply trimStart_id, Hd.
Qed.

Lemma trimEnd_app s t :
  s <> [] -> trimStart (rev s) = rev s -> trimEnd (s ++ t) = s ++ trimEnd t.
Proof.
  intros Hne Hs. unfold trimEnd.
  rewrite rev_app_distr, trimStart_app.
  destruct (trimStart (rev t)) as [|c r] eqn:E.
  - rewrite Hs, rev_involutive. simpl. rewrite app_nil_r. reflexivity.
  - rewrite rev_app_distr, rev_involutive. reflexivity.
Qed.

Lemma elem_of_trimStart c s : c ∈ trimStart s -> c ∈ s.
Proof.
  induction s as [|a s IH]; simpl; [trivial|].
  destruct (isWhiteSpace a); [|trivial].
  intros H. apply elem_of_cons. right. apply IH, H.
Qed.

Lemma elem_of_trim c s : c ∈ trim s -> c ∈ s.
Proof.
  unfold trim, trimEnd. intros H.
  apply elem_of_trimStart.
  apply list_elem_of_In, in_rev, list_elem_of_In in H.
  apply elem_of_trimStart in H.
  apply list_elem_of_In, in_rev, list_elem_of_In in H. exact H.
Qed.

(** *** Splitting *)

Lemma split_nonempty s c : split s c <> [].
Proof.
  destruct s as [|a s]; simpl; [discriminate|].
  destruct (Ascii.eqb a c); [discriminate|].
  destruct (split s c); discriminate.
Qed.

Lemma split_no_sep s c : c ∉ s -> split s c = [s].
Proof.
  induction s as [|a s IH]; intros H; [reflexivity|].
  apply not_elem_of_cons in H as [Ha Hs]. simpl.
  destruct (Ascii.eqb a c) eqn:E.
  - apply Ascii.eqb_eq in E. congruence.
  - rewrite (IH Hs). reflexivity.
Qed.

Lemma split_app_sep s t c : c ∉ s -> split (s ++ c :: t) c = s :: split t c.
Proof.
  induction s as [|a s IH]; intros H; simpl.
  - rewrite eqb_ascii_refl. reflexivity.
  - apply not_elem_of_cons in H as [Ha Hs].
    destruct (Ascii.eqb a c) eqn:E.
    + apply Ascii.eqb_eq in E. congruence.
    + rewrite (IH Hs). reflexivity.
Qed.

Lemma split_Forall_no_sep s c : Forall (fun p => c ∉ p) (split s c).
Proof.
  induction s as [|a s IH]; simpl.
  - constructor; [apply not_elem_of_nil|constructor].
  - destruct (Ascii.eqb a c) eqn:E.
    + constructor; [apply not_elem_of_nil|exact IH].
    + destruct (split s c) as [|cur rest] eqn:Es;
        [exfalso; eapply split_nonempty; eauto|].
      inversion IH as [|? ? Hcur Hrest]; subst.
      constructor; [|exact Hrest].
      apply not_elem_of_cons. split; [|exact Hcur].
      intros ->. rewrite eqb_ascii_refl in E. discriminate.
Qed.

End StringFacts.

(** ** Decoding *)

Section Decoding.

Implicit Types (raw text body rest : jsstring) (f : BaseMessage).

Lemma endsWith_app p rest c :
  endsWith (p ++ rest) [c] =
  match rest with [] => endsWith p [c] | _ => endsWith rest [c] end.
Proof.
  unfold endsWith. rewrite rev_app_distr.
  destruct rest as [|a rest]; [reflexivity|].
  simpl rev. destruct (rev rest ++ [a]) as [|b u] eqn:E.
  - destruct (rev rest); discriminate.
  - reflexivity.
Qed.

Lemma list_shape_6 {A} (l : list A) :
  6 <= length l ->
  exists c v i n mid t q, l = [c; v; i; n] ++ mid ++ [t; q].
Proof.
  intros H.
  destruct l as [|c [|v [|i [|n r]]]]; simpl in H; try lia.
  assert (Hr : 2 <= length r) by lia. clear H.
  destruct (rev r) as [|q [|t m]] eqn:E.
  - apply (f_equal (@length A)) in E. rewrite length_rev in E. simpl in E. lia.
  - apply (f_equal (@length A)) in E. rewrite length_rev in E. simpl in E. lia.
  - exists c, v, i, n, (rev m), t, q.
    rewrite <- (rev_involutive r), E. simpl.
    rewrite <- app_assoc. reflexivity.
Qed.

Lemma lookup_back2 {A} (pre : list A) (t q : A) :
  (pre ++ [t; q]) !! (length (pre ++ [t; q]) - 2) = Some t /\
  (pre ++ [t; q]) !! (length (pre ++ [t; q]) - 1) = Some q.
Proof.
  rewrite length_app. simpl length.
  replace (length pre + 2 - 2) with (length pre + 0) by lia.
  replace (length pre + 2 - 1) with (length pre + 1) by lia.
  rewrite !lookup_app_r by lia.
  replace (length pre + 0 - length pre) with 0 by lia.
  replace (length pre + 1 - length pre) with 1 by lia.
  split; reflexivity.
Qed.

(** What [parseRespMessage] computes on a text whose only [$] is the
    terminator. *)
Lemma parseRespMessage_single_tail body :
  TAIL_CHAR ∉ body ->
  let text := js "+RESP:" ++ body ++ [TAIL_CHAR] in
  let parts := split body FIELD_SEPARATOR in
  parseRespMessage text =
  if length parts <? 6 then parseFailure err_resp
  else
    parseSuccess
      {| frameType := RESP;
         commandWord := orEmpty (parts !! 0);
         fullProtocolVersion := orEmpty (parts !! 1);
         uniqueId := orEmpty (parts !! 2);
         deviceName := orEmpty (parts !! 3);
         sendTime := orEmpty (parts !! (length parts - 2));
         countNumber := orEmpty (parts !! (length parts - 1));
         rawMessage := text |}
      true
      (generateSackMessage None None
         (Some (orEmpty (parts !! (length parts - 1))))).
Proof.
  intros H text parts. unfold parseRespMessage.
  change (substringFrom text 6) with (body ++ [TAIL_CHAR]).
  rewrite (replace_tail _ H). reflexivity.
Qed.

Lemma parseMessage_trim raw : parseMessage (trim raw) = parseMessage raw.
Proof. unfold parseMessage. rewrite trim_idem. reflexivity. Qed.

Lemma trim_prefix p rest :
  trimStart p = p -> trimStart (rev p) = rev p -> p <> [] ->
  trim (p ++ rest) = p ++ trimEnd rest.
Proof.
  intros H1 H2 Hne. unfold trim.
  rewrite trimStart_app, H1.
  destruct p as [|c p]; [congruence|].
  apply trimEnd_app; [discriminate|exact H2].
Qed.

Lemma trim_resp rest : trim (js "+RESP:" ++ rest) = js "+RESP:" ++ trimEnd rest.
Proof. apply trim_prefix; [reflexivity|reflexivity|discriminate]. Qed.

Lemma trim_buff rest : trim (js "+BUFF:" ++ rest) = js "+BUFF:" ++ trimEnd rest.
Proof. apply trim_prefix; [reflexivity|reflexivity|discriminate]. Qed.

Lemma parseMessage_resp_text rest :
  parseMessage (js "+RESP:" ++ rest) =
  if negb (endsWith (trim (js "+RESP:" ++ rest)) [TAIL_CHAR])
  then parseFailure err_no_tail
  else parseRespMessage (trim (js "+RESP:" ++ rest)).
Proof.
  unfold parseMessage. rewrite trim_resp.
  destruct (negb _); reflexivity.
Qed.

Lemma parseMessage_buff_text rest :
  parseMessage (js "+BUFF:" ++ rest) =
  if negb (endsWith (trim (js "+BUFF:" ++ rest)) [TAIL_CHAR])
  then parseFailure err_no_tail
  else parseBuffMessage (trim (js "+BUFF:" ++ rest)).
Proof.
  unfold parseMessage. rewrite trim_buff.
  destruct (negb _); reflexivity.
Qed.

Lemma rawMessage_parseMessage raw f :
  message (parseMessage raw) = Some f -> rawMessage f = trim raw.
Proof.
  unfold parseMessage.
  destruct (negb _); [discriminate|].
  destruct (identifyFrameType (trim raw)) as [[]|]; try discriminate.
  - unfold parseAckMessage.
    destruct (_ <? 6); [discriminate|].
    destruct (decide _); intros [= <-]; reflexivity.
  - unfold parseRespMessage.
    destruct (_ <? 6); [discriminate|].
    intros [= <-]; reflexivity.
  - unfold parseBuffMessage, parseRespMessage.
    destruct (_ <? 6); [discriminate|].
    intros [= <-]; reflexivity.
Qed.

End Decoding.

(** ** Properties of the frame decoder *)

Section DecoderClaims.

Implicit Types (raw text body rest : jsstring) (f : BaseMessage).

(** C1, as the code has it: for every Resp frame text (after trimming,
    [+RESP:] then a body then the terminator) whose body contains no other
    [$], the decoder splits the body on commas; with fewer than 6 fields
    the result is the Resp format error, and with at least 6 fields the
    first four fields are the command word, protocol version, device
    identifier and device name, and the send time and sequence number are
    the last two fields, however many fields lie in between. *)
Theorem resp_fields_anchored raw body :
  TAIL_CHAR ∉ body ->
  trim raw = js "+RESP:" ++ body ++ [TAIL_CHAR] ->
  let parts := split body FIELD_SEPARATOR in
  (length parts < 6 -> parseMessage raw = parseFailure err_resp) /\
  (6 <= length parts ->
   exists c v i n mid t q,
     parts = [c; v; i; n] ++ mid ++ [t; q] /\
     parseMessage raw =
     parseSuccess
       {| frameType := RESP; commandWord := c; fullProtocolVersion := v;
          uniqueId := i; deviceName := n; sendTime := t; countNumber := q;
          rawMessage := trim raw |}
       true (generateSackMessage None None (Some q))).
Proof.
  intros Hbody Htrim parts.
  assert (Hparse : parseMessage raw =
                   parseRespMessage (js "+RESP:" ++ body ++ [TAIL_CHAR])).
  { rewrite <- parseMessage_trim, Htrim, parseMessage_resp_text.
    rewrite <- Htrim, trim_idem, Htrim.
    change (js "+RESP:" ++ body ++ [TAIL_CHAR])
      with ((js "+RESP:" ++ body) ++ [TAIL_CHAR]) at 1.
    rewrite endsWith_snoc. reflexivity. }
  rewrite Hparse, (parseRespMessage_single_tail _ Hbody). fold parts.
  split.
  - intros Hlt. apply Nat.ltb_lt in Hlt. rewrite Hlt. reflexivity.
  - intros Hge.
    destruct (list_shape_6 parts Hge) as (c & v & i & n & mid & t & q & E).
    exists c, v, i, n, mid, t, q. split; [exact E|].
    assert (Hltb : (length parts <? 6) = false) by (apply Nat.ltb_ge; exact Hge).
    rewrite Hltb, Htrim.
    assert (Hb := lookup_back2 ([c; v; i; n] ++ mid) t q).
    rewrite <- app_assoc, <- E in Hb. destruct Hb as [Ht Hq].
    rewrite Ht, Hq. rewrite E. reflexivity.
Qed.

Lemma resp_fields_anchored_witness :
  let raw :=
    js "+RESP:GTFRI,80200A0303,865585040014007,GL33CG,0,1,20190517022529,0029$"
  in
  exists c v i n mid t q,
    split (js "GTFRI,80200A0303,865585040014007,GL33CG,0,1,20190517022529,0029")
      FIELD_SEPARATOR = [c; v; i; n] ++ mid ++ [t; q] /\
    parseMessage raw =
    parseSuccess
      {| frameType := RESP; commandWord := c; fullProtocolVersion := v;
         uniqueId := i; deviceName := n; sendTime := t; countNumber := q;
         rawMessage := trim raw |}
      true (generateSackMessage None None (Some q)).
Proof.
  intros raw.
  refine (proj2 (resp_fields_anchored raw
    (js "GTFRI,80200A0303,865585040014007,GL33CG,0,1,20190517022529,0029")
    _ _) _).
  - vm_compute. intros H. repeat (apply elem_of_cons in H as [H|H]; [discriminate|]).
    apply elem_of_nil in H. exact H.
  - vm_compute. reflexivity.
  - vm_compute. lia.
Defined.

(** C1 as stated fails when the body holds a [$] of its own: the decoder
    removes the first [$] of the text, not the terminator. *)
Lemma resp_fields_interior_tail :
  let text := js "+RESP:a$,b,c,d,e,f$" in
  let body := js "a$,b,c,d,e,f" in
  text = js "+RESP:" ++ body ++ [TAIL_CHAR] /\
  split body FIELD_SEPARATOR = [js "a$"; js "b"; js "c"; js "d"; js "e"; js "f"] /\
  exists f,
    parseMessage text = parseSuccess f true (js "+SACK:f$$") /\
    commandWord f = js "a" /\ commandWord f <> js "a$" /\
    countNumber f = js "f$" /\ countNumber f <> js "f".
Proof.
  intros text body. split; [reflexivity|]. split; [vm_compute; reflexivity|].
  eexists. split; [vm_compute; reflexivity|].
  simpl. repeat split; discriminate.
Qed.

(** C4: when decoding a text succeeds with frame [f], decoding the raw text
    kept in [f] gives the same result, so the same frame in every field. *)
Theorem decode_rawMessage_roundtrip raw f :
  success (parseMessage raw) = true ->
  message (parseMessage raw) = Some f ->
  parseMessage (rawMessage f) = parseMessage raw /\
  success (parseMessage (rawMessage f)) = true /\
  message (parseMessage (rawMessage f)) = Some f.
Proof.
  intros Hs Hm.
  assert (E : parseMessage (rawMessage f) = parseMessage raw).
  { rewrite (rawMessage_parseMessage _ _ Hm). apply parseMessage_trim. }
  rewrite E. auto.
Qed.

Lemma decode_rawMessage_roundtrip_witness :
  let raw := js "  +BUFF:GTFRI,80200A0303,865585040014007,GL33CG,0,1,20190517022529,0029$ " in
  exists f,
    message (parseMessage raw) = Some f /\
    frameType f = BUFF /\
    parseMessage (rawMessage f) = parseMessage raw /\
    success (parseMessage (rawMessage f)) = true /\
    message (parseMessage (rawMessage f)) = Some f.
Proof.
  intros raw. eexists. split; [vm_compute; reflexivity|].
  split; [reflexivity|].
  apply (decode_rawMessage_roundtrip raw); vm_compute; reflexivity.
Defined.

(** C9: a text that begins with the Buff prefix decodes as the same text
    with the Resp prefix in its place, with the frame type set back to
    Buff and the raw text set back to the (trimmed) Buff text; a failure is
    the failure of the Resp decoder, and one succeeds exactly when the
    other does. *)
Theorem buff_decodes_as_resp rest :
  parseBuffMessage (js "+BUFF:" ++ rest) =
    asBuff (js "+BUFF:" ++ rest) (parseRespMessage (js "+RESP:" ++ rest)) /\
  parseMessage (js "+BUFF:" ++ rest) =
    asBuff (trim (js "+BUFF:" ++ rest)) (parseMessage (js "+RESP:" ++ rest)) /\
  success (parseMessage (js "+BUFF:" ++ rest)) =
    success (parseMessage (js "+RESP:" ++ rest)) /\
  error (parseMessage (js "+BUFF:" ++ rest)) =
    error (parseMessage (js "+RESP:" ++ rest)).
Proof.
  assert (Hb : forall x, parseBuffMessage (js "+BUFF:" ++ x) =
               asBuff (js "+BUFF:" ++ x) (parseRespMessage (js "+RESP:" ++ x))).
  { intros x. unfold parseBuffMessage. rewrite replace_prefix. reflexivity. }
  assert (Hm : parseMessage (js "+BUFF:" ++ rest) =
    asBuff (trim (js "+BUFF:" ++ rest)) (parseMessage (js "+RESP:" ++ rest))).
  { rewrite parseMessage_buff_text, parseMessage_resp_text.
    rewrite trim_buff, trim_resp.
    rewrite (endsWith_app (js "+BUFF:")), (endsWith_app (js "+RESP:")).
    destruct (trimEnd rest) as [|a u] eqn:E; [reflexivity|].
    destruct (negb _); [reflexivity|]. apply Hb. }
  split; [apply Hb|]. split; [exact Hm|].
  rewrite Hm. unfold asBuff.
  destruct (parseMessage (js "+RESP:" ++ rest)) as [[] [m|] e na am];
    split; reflexivity.
Qed.

Lemma generateSackMessage_short q :
  generateSackMessage None None (Some q) =
  js "+SACK:" ++ match q with [] => js "0000" | _ => q end ++ js "$".
Proof. destruct q; reflexivity. Qed.

Lemma generateSackMessage_long c v q :
  c <> [] ->
  generateSackMessage (Some c) (Some v) (Some q) =
  match v with
  | [] => js "+SACK:" ++ match q with [] => js "0000" | _ => q end ++ js "$"
  | _ => js "+SACK:" ++ c ++ js "," ++ firstn 6 v ++ js ","
           ++ match q with [] => js "0000" | _ => q end ++ js "$"
  end.
Proof. intros Hc. destruct c; [congruence|]. destruct v, q; reflexivity. Qed.

Lemma parseAckMessage_shape text :
  parseAckMessage text = parseFailure err_ack \/
  exists c v i n t q,
    parseAckMessage text =
    let m := mkBaseMessage ACK c v i n t q text in
    if decide (c = GTHBD)
    then parseSuccess m true (generateSackMessage (Some c) (Some v) (Some q))
    else parseSuccess m false [].
Proof.
  unfold parseAckMessage. destruct (_ <? 6); [left; reflexivity|].
  right. do 6 eexists. reflexivity.
Qed.

Lemma parseRespMessage_shape text :
  parseRespMessage text = parseFailure err_resp \/
  exists c v i n t q,
    parseRespMessage text =
    parseSuccess (mkBaseMessage RESP c v i n t q text) true
      (generateSackMessage None None (Some q)).
Proof.
  unfold parseRespMessage. destruct (_ <? 6); [left; reflexivity|].
  right. do 6 eexists. reflexivity.
Qed.

Lemma ackText_short k c v i n t q text :
  k = RESP \/ k = BUFF ->
  ackText (mkBaseMessage k c v i n t q text) =
  generateSackMessage None None (Some q).
Proof.
  rewrite generateSackMessage_short.
  intros [-> | ->]; unfold ackText, seqOrDefault; simpl;
    destruct v, q; reflexivity.
Qed.

(** The acknowledgment flag and text of a decoded frame are the functions
    [ackRequired] and [ackText] of the frame. *)
Lemma ack_function raw f :
  message (parseMessage raw) = Some f ->
  needsAck (parseMessage raw) = Some (ackRequired f) /\
  ackMessage (parseMessage raw) =
    Some (if ackRequired f then ackText f else []).
Proof.
  unfold parseMessage.
  destruct (negb _); [discriminate|].
  destruct (identifyFrameType (trim raw)) as [[]|]; try discriminate.
  - destruct (parseAckMessage_shape (trim raw))
      as [-> | (c & v & i & n & t & q & ->)]; [discriminate|].
    cbv zeta. destruct (decide (c = GTHBD)) as [Hc|Hc]; intros [= <-];
      unfold ackRequired;
      cbn [frameType commandWord needsAck ackMessage parseSuccess].
    + rewrite bool_decide_eq_true_2 by exact Hc.
      split; [reflexivity|]. f_equal.
      rewrite generateSackMessage_long by (rewrite Hc; discriminate).
      unfold ackText, seqOrDefault. simpl. destruct v, q; reflexivity.
    + rewrite bool_decide_eq_false_2 by exact Hc. split; reflexivity.
  - destruct (parseRespMessage_shape (trim raw))
      as [-> | (c & v & i & n & t & q & ->)]; [discriminate|].
    intros [= <-]. simpl. split; [reflexivity|]. f_equal.
    symmetry. apply ackText_short. left. reflexivity.
  - unfold parseBuffMessage.
    destruct (parseRespMessage_shape
                (replace (trim raw) (js "+BUFF:") (js "+RESP:")))
      as [-> | (c & v & i & n & t & q & ->)]; [discriminate|].
    intros [= <-]. simpl. split; [reflexivity|]. f_equal.
    symmetry. apply ackText_short. right. reflexivity.
Qed.

(** C3, as the code has it: the acknowledgment of a decoded frame is a
    function of the frame.  An Ack frame is acknowledged exactly when its
    command word is the heartbeat word, with the text
    [+SACK:<commandWord>,<first 6 of protocolVersion>,<seq or 0000>$] when
    its protocol version is not empty and [+SACK:<seq or 0000>$] when it
    is; an Ack frame with another command word is not acknowledged and
    carries an empty text; every Resp or Buff frame is acknowledged with
    [+SACK:<seq or 0000>$].  The heartbeat of the protocol document yields
    [+SACK:GTHBD,80200A,0029$]. *)
Theorem ack_policy raw f :
  message (parseMessage raw) = Some f ->
  let r := parseMessage raw in
  (needsAck r = Some (ackRequired f) /\
   ackMessage r = Some (if ackRequired f then ackText f else [])) /\
  (frameType f = ACK ->
   (needsAck r = Some true <-> commandWord f = GTHBD)) /\
  (frameType f = ACK -> commandWord f = GTHBD ->
   ackMessage r =
   Some (match fullProtocolVersion f with
         | [] => js "+SACK:" ++ seqOrDefault f ++ js "$"
         | _ :: _ =>
             js "+SACK:" ++ commandWord f ++ js ","
               ++ firstn 6 (fullProtocolVersion f) ++ js ","
               ++ seqOrDefault f ++ js "$"
         end)) /\
  (frameType f = ACK -> commandWord f <> GTHBD ->
   needsAck r = Some false /\ ackMessage r = Some []) /\
  (frameType f = RESP \/ frameType f = BUFF ->
   needsAck r = Some true /\
   ackMessage r = Some (js "+SACK:" ++ seqOrDefault f ++ js "$")) /\
  ackMessage
    (parseMessage
       (js "+ACK:GTHBD,80200A0303,865585040014007,GL33CG,20190517022529,0029$"))
  = Some (js "+SACK:GTHBD,80200A,0029$").
Proof.
  intros Hm r. destruct (ack_function raw f Hm) as [H1 H2].
  fold r in H1, H2. rewrite H1, H2. clear H1 H2 Hm r.
  destruct f as [k c v i n t q text]. unfold ackRequired, ackText.
  cbn [frameType commandWord fullProtocolVersion].
  split; [split; reflexivity|]. split; [|split; [|split; [|split]]].
  - intros ->. split.
    + intros [= H]. apply bool_decide_eq_true in H. exact H.
    + intros H. rewrite bool_decide_eq_true_2 by exact H. reflexivity.
  - intros -> Hc. rewrite bool_decide_eq_true_2 by exact Hc.
    destruct v; reflexivity.
  - intros -> Hc. rewrite bool_decide_eq_false_2 by exact Hc.
    split; reflexivity.
  - intros [-> | ->]; split; try reflexivity; destruct v; reflexivity.
  - vm_compute. reflexivity.
Qed.

Lemma ack_policy_witness :
  let raw := js "+RESP:GTFRI,80200A0303,865585040014007,GL33CG,0,1,20190517022529,$" in
  exists f,
    message (parseMessage raw) = Some f /\
    needsAck (parseMessage raw) = Some true /\
    ackMessage (parseMessage raw) = Some (js "+SACK:0000$").
Proof.
  intros raw. eexists. split; [vm_compute; reflexivity|].
  pose proof (ack_policy raw _ eq_refl) as (_ & _ & _ & _ & H & _).
  apply H. left. reflexivity.
Defined.

(** C3 as stated fails for a heartbeat whose protocol version field is
    empty: the text is the short form, not
    [+SACK:GTHBD,,0029$]. *)
Lemma ack_heartbeat_empty_version :
  let raw := js "+ACK:GTHBD,,865585040014007,GL33CG,20190517022529,0029$" in
  exists f,
    parseMessage raw = parseSuccess f true (js "+SACK:0029$") /\
    frameType f = ACK /\ commandWord f = GTHBD /\
    fullProtocolVersion f = [] /\ countNumber f = js "0029" /\
    js "+SACK:0029$" <>
    js "+SACK:" ++ commandWord f ++ js "," ++ firstn 6 (fullProtocolVersion f)
      ++ js "," ++ countNumber f ++ js "$".
Proof.
  intros raw. eexists. split; [vm_compute; reflexivity|].
  simpl. repeat split; discriminate.
Qed.

End DecoderClaims.

(** ** Properties of frame extraction *)

Section Extraction.

Implicit Types (s buffer tl : jsstring) (segs : list jsstring).

Lemma split_framesBuffer segs tl :
  Forall (fun s => TAIL_CHAR ∉ s) segs -> TAIL_CHAR ∉ tl ->
  split (framesBuffer segs ++ tl) TAIL_CHAR = segs ++ [tl].
Proof.
  intros Hsegs Htl. induction Hsegs as [|s segs Hs _ IH]; simpl.
  - apply split_no_sep, Htl.
  - unfold framesBuffer in *. simpl. rewrite <- !app_assoc. simpl.
    rewrite (split_app_sep _ _ _ Hs), IH. reflexivity.
Qed.

Lemma last_snoc {A} (l : list A) (x : A) : last (l ++ [x]) = Some x.
Proof. induction l as [|a [|b l] IH]; simpl in *; auto. Qed.

(** What [extractMessages] returns on terminated segments followed by an
    unterminated tail: the tail is dropped only when it is blank. *)
Lemma extractMessages_keepParts buffer :
  extractMessages buffer =
  keepParts (if decide (last (split buffer TAIL_CHAR) = Some [])
             then removelast (split buffer TAIL_CHAR)
             else split buffer TAIL_CHAR).
Proof. reflexivity. Qed.

Lemma keepParts_app parts1 parts2 :
  keepParts (parts1 ++ parts2) = keepParts parts1 ++ keepParts parts2.
Proof. apply flat_map_app. Qed.

Lemma extractMessages_segments segs tl :
  Forall (fun s => TAIL_CHAR ∉ s) segs -> TAIL_CHAR ∉ tl ->
  extractMessages (framesBuffer segs ++ tl) =
  keepParts segs ++ keepParts (match tl with [] => [] | _ => [tl] end).
Proof.
  intros Hsegs Htl. rewrite extractMessages_keepParts.
  rewrite (split_framesBuffer _ _ Hsegs Htl), last_snoc.
  destruct (decide (Some tl = Some [])) as [E|E].
  - injection E as ->. rewrite removelast_last.
    rewrite app_nil_r. reflexivity.
  - rewrite keepParts_app. destruct tl; [congruence|reflexivity].
Qed.

Lemma keepParts_cons s parts :
  keepParts (s :: parts) =
  match trim s with
  | [] => keepParts parts
  | _ => (trim s ++ [TAIL_CHAR]) :: keepParts parts
  end.
Proof. unfold keepParts. simpl. destruct (trim s); reflexivity. Qed.

Lemma keepParts_all segs :
  Forall (fun s => trim s <> []) segs ->
  keepParts segs = map (fun s => trim s ++ [TAIL_CHAR]) segs.
Proof.
  induction 1 as [|s segs Hs _ IH]; [reflexivity|].
  rewrite keepParts_cons, IH. simpl map.
  destruct (trim s); [congruence|reflexivity].
Qed.

Lemma countTail_app s t : countTail (s ++ t) = countTail s + countTail t.
Proof. unfold countTail. rewrite filter_app, length_app. reflexivity. Qed.

Lemma countTail_none s : TAIL_CHAR ∉ s -> countTail s = 0.
Proof.
  unfold countTail. induction s as [|c s IH]; intros H; [reflexivity|].
  apply not_elem_of_cons in H as [Hc Hs].
  rewrite filter_cons_False by congruence. apply IH, Hs.
Qed.

Lemma countTail_framesBuffer segs :
  Forall (fun s => TAIL_CHAR ∉ s) segs ->
  countTail (framesBuffer segs) = length segs.
Proof.
  induction 1 as [|s segs Hs _ IH]; [reflexivity|].
  unfold framesBuffer in *. simpl.
  rewrite !countTail_app, IH, (countTail_none _ Hs). reflexivity.
Qed.

Lemma trim_no_tail s : TAIL_CHAR ∉ s -> TAIL_CHAR ∉ trim s.
Proof. intros H Hin. apply H, elem_of_trim, Hin. Qed.

Lemma wellFramed_trim_part s :
  TAIL_CHAR ∉ s -> trim s <> [] -> wellFramed (trim s ++ [TAIL_CHAR]).
Proof.
  intros Hs Hne. pose proof (trim_no_tail _ Hs) as Hb.
  unfold wellFramed. split; [apply endsWith_snoc|].
  split; [exists (trim s); auto|].
  split; [rewrite countTail_app, (countTail_none _ Hb); reflexivity|].
  split.
  - destruct (trim_trimmed s) as [H1 _].
    destruct (trim s) as [|c u] eqn:E; [congruence|].
    apply (trim_frame c u TAIL_CHAR); [|reflexivity].
    eapply trimStart_head. exact H1.
  - destruct (trim s); [congruence|]. split; [discriminate|].
    simpl. intros [= _ H]. destruct l; discriminate.
Qed.

Lemma keepParts_wellFramed parts :
  Forall (fun s => TAIL_CHAR ∉ s) parts -> Forall wellFramed (keepParts parts).
Proof.
  induction 1 as [|s parts Hs _ IH]; [constructor|].
  rewrite keepParts_cons.
  destruct (trim s) as [|c u] eqn:E; [exact IH|].
  constructor; [|exact IH].
  rewrite <- E. apply wellFramed_trim_part; [exact Hs|congruence].
Qed.

Lemma Forall_removelast {A} (P : A -> Prop) (l : list A) :
  Forall P l -> Forall P (removelast l).
Proof.
  induction 1 as [|a l Ha Hl IH]; [constructor|].
  simpl. destruct l; [constructor|]. constructor; assumption.
Qed.

Lemma extractMessages_Forall_wellFramed buffer :
  Forall wellFramed (extractMessages buffer).
Proof.
  rewrite extractMessages_keepParts. apply keepParts_wellFramed.
  destruct (decide _); [apply Forall_removelast|];
    apply split_Forall_no_sep.
Qed.

(** C10: every message returned by [extractMessages] ends with the
    terminator, holds no other [$], has no white space at either end and is
    not empty before the terminator; so none is empty or a bare
    terminator. *)
Theorem extractMessages_output_invariant buffer :
  Forall
    (fun m =>
       endsWith m [TAIL_CHAR] = true /\
       (exists body,
          m = body ++ [TAIL_CHAR] /\ (TAIL_CHAR ∉ body) /\ body <> []) /\
       countTail m = 1 /\
       trim m = m /\
       m <> [] /\ m <> [TAIL_CHAR])
    (extractMessages buffer).
Proof. exact (extractMessages_Forall_wellFramed buffer). Qed.

(** C2, as the code has it: for a buffer made of N segments, each holding
    no [$], holding a code unit that is not white space, and followed by
    the terminator, the buffer holds N terminators and [extractMessages]
    returns N messages in the order of the segments, the i-th being the
    trimmed i-th segment and the terminator; each ends with the terminator
    and holds exactly one. *)
Theorem extractMessages_exact segs :
  Forall (fun s => (TAIL_CHAR ∉ s) /\ trim s <> []) segs ->
  let buffer := framesBuffer segs in
  countTail buffer = length segs /\
  extractMessages buffer = map (fun s => trim s ++ [TAIL_CHAR]) segs /\
  length (extractMessages buffer) = length segs /\
  Forall (fun m => endsWith m [TAIL_CHAR] = true /\ countTail m = 1)
    (extractMessages buffer).
Proof.
  intros H buffer.
  apply Forall_and in H as [Hno Hne].
  assert (E : extractMessages buffer = map (fun s => trim s ++ [TAIL_CHAR]) segs).
  { unfold buffer. rewrite <- (app_nil_r (framesBuffer segs)).
    rewrite (extractMessages_segments _ [] Hno) by apply not_elem_of_nil.
    rewrite app_nil_r.
    apply keepParts_all, Hne. }
  split; [apply countTail_framesBuffer, Hno|].
  split; [exact E|]. split; [rewrite E; apply length_map|].
  eapply Forall_impl; [apply extractMessages_Forall_wellFramed|].
  intros m (H1 & _ & H3 & _). auto.
Qed.

Lemma extractMessages_exact_witness :
  let buffer :=
    js "+ACK:GTHBD,80200A0303,865585040014007,GL33CG,20190517022529,0029$+ACK:GTHBD,80200A0303,865585040014007,GL33CG,20190517022630,002A$"
  in
  countTail buffer = 2 /\
  extractMessages buffer =
  [js "+ACK:GTHBD,80200A0303,865585040014007,GL33CG,20190517022529,0029$";
   js "+ACK:GTHBD,80200A0303,865585040014007,GL33CG,20190517022630,002A$"].
Proof.
  intros buffer.
  pose proof (extractMessages_exact
    [js "+ACK:GTHBD,80200A0303,865585040014007,GL33CG,20190517022529,0029";
     js "+ACK:GTHBD,80200A0303,865585040014007,GL33CG,20190517022630,002A"])
    as H.
  assert (Hsegs : Forall (fun s => (TAIL_CHAR ∉ s) /\ trim s <> [])
    [js "+ACK:GTHBD,80200A0303,865585040014007,GL33CG,20190517022529,0029";
     js "+ACK:GTHBD,80200A0303,865585040014007,GL33CG,20190517022630,002A"]).
  { repeat constructor; try discriminate;
      apply (bool_decide_unpack _); vm_compute; reflexivity. }
  destruct (H Hsegs) as (H1 & H2 & _).
  split; [exact H1|exact H2].
Defined.

(** C2 as stated fails when a segment is empty or blank: this buffer
    begins with a frame prefix, ends with the terminator and holds three
    terminators, and two messages are returned. *)
Lemma extractMessages_blank_segment :
  let buffer := js "+ACK:a$$+ACK:b$" in
  startsWith buffer (js "+ACK:") = true /\
  endsWith buffer [TAIL_CHAR] = true /\
  countTail buffer = 3 /\
  extractMessages buffer = [js "+ACK:a$"; js "+ACK:b$"] /\
  length (extractMessages buffer) <> countTail buffer /\
  countTail (js "$") = 1 /\ extractMessages (js "$") = [].
Proof.
  intros buffer. repeat split; try (vm_compute; reflexivity).
  vm_compute. discriminate.
Qed.

End Extraction.

(** ** Properties of the server *)

Section ServerFacts.

Variable config : ServerConfig.

Implicit Types (st : Server) (clientId msg : jsstring) (now : Z).

Lemma sameCore_refl st : sameCore st st.
Proof. split; reflexivity. Qed.

Lemma sameCore_sym st1 st2 : sameCore st1 st2 -> sameCore st2 st1.
Proof. intros [H1 H2]. split; symmetry; assumption. Qed.

Lemma sameCore_trans st1 st2 st3 :
  sameCore st1 st2 -> sameCore st2 st3 -> sameCore st1 st3.
Proof. intros [H1 H2] [H3 H4]. split; congruence. Qed.

Lemma sameCore_addLog e st : sameCore (addLog e st) st.
Proof. split; reflexivity. Qed.

Lemma sendAckMessage_clients clientId text st :
  clients (sendAckMessage clientId text st) = clients st.
Proof.
  unfold sendAckMessage.
  destruct (clients st !! clientId) as [c|]; [|reflexivity].
  destruct (sockets st !! Client.socket c) as [s|]; [|reflexivity].
  destruct (writable s); reflexivity.
Qed.

Lemma handleSpecificCommand_core clientId m st :
  sameCore (handleSpecificCommand clientId m st) st.
Proof.
  unfold handleSpecificCommand.
  destruct (commandCategory (commandWord m)); split; reflexivity.
Qed.

Lemma sendAckMessage_sameCore clientId text st1 st2 :
  sameCore st1 st2 ->
  sameCore (sendAckMessage clientId text st1) (sendAckMessage clientId text st2).
Proof.
  intros [Hc Hs]. unfold sendAckMessage. rewrite Hc.
  destruct (clients st2 !! clientId) as [c|]; [|split; assumption].
  rewrite Hs.
  destruct (sockets st2 !! Client.socket c) as [s|]; [|split; assumption].
  destruct (writable s); [|split; assumption].
  split; simpl; congruence.
Qed.

Lemma updClient_sameCore clientId f st1 st2 :
  sameCore st1 st2 ->
  sameCore (updClient clientId f st1) (updClient clientId f st2).
Proof. intros [Hc Hs]. split; simpl; congruence. Qed.

Lemma addLog_sameCore e1 e2 st1 st2 :
  sameCore st1 st2 -> sameCore (addLog e1 st1) (addLog e2 st2).
Proof. intros [Hc Hs]. split; simpl; congruence. Qed.

Lemma handleSpecificCommand_sameCore clientId m st1 st2 :
  sameCore st1 st2 ->
  sameCore (handleSpecificCommand clientId m st1)
           (handleSpecificCommand clientId m st2).
Proof.
  intros H.
  eapply sameCore_trans; [apply handleSpecificCommand_core|].
  eapply sameCore_trans; [exact H|].
  apply sameCore_sym, handleSpecificCommand_core.
Qed.

Create HintDb server_core.

#[local] Hint Resolve sameCore_refl sameCore_addLog updClient_sameCore
  addLog_sameCore sendAckMessage_sameCore handleSpecificCommand_sameCore
  : server_core.

(** [processMessage] reads the registry and the sockets only. *)
Lemma processMessage_sameCore now clientId msg st1 st2 :
  sameCore st1 st2 ->
  sameCore (processMessage config now clientId msg st1)
           (processMessage config now clientId msg st2).
Proof.
  intros H. pose proof H as [Hc Hs]. unfold processMessage. rewrite Hc.
  destruct (clients st2 !! clientId) as [c|]; [|exact H].
  destruct (negb _); [auto with server_core|].
  destruct (message (parseMessage msg)) as [m|]; [|exact H].
  apply handleSpecificCommand_sameCore.
  repeat match goal with
         | |- sameCore (if ?b then _ else _) (if ?b then _ else _) =>
             destruct b
         | |- sameCore (match ?x with _ => _ end) (match ?x with _ => _ end) =>
             destruct x
         | |- _ => first [ apply sendAckMessage_sameCore
                         | apply addLog_sameCore
                         | apply updClient_sameCore
                         | exact H ]
         end.
Qed.

Lemma processMessages_sameCore now clientId msgs st1 st2 :
  sameCore st1 st2 ->
  sameCore (processMessages config now clientId msgs st1)
           (processMessages config now clientId msgs st2).
Proof.
  revert st1 st2. induction msgs as [|m msgs IH]; intros st1 st2 H; [exact H|].
  simpl. apply IH, processMessage_sameCore, H.
Qed.

Lemma handleClientData_sameCore now clientId data st1 st2 :
  sameCore st1 st2 ->
  sameCore (handleClientData config now clientId data st1)
           (handleClientData config now clientId data st2).
Proof.
  intros H. pose proof H as [Hc Hs]. unfold handleClientData. rewrite Hc.
  destruct (clients st2 !! clientId) as [c|]; [|exact H].
  destruct (negb _); [apply addLog_sameCore, H|].
  apply processMessages_sameCore, H.
Qed.

(** A frame that fails to decode changes nothing but the log. *)
Lemma processMessage_failure now clientId msg st :
  success (parseMessage msg) = false ->
  processMessage config now clientId msg st =
  match clients st !! clientId with
  | None => st
  | Some _ =>
      addLog
        (LogProtocolError clientId
           (if truthy (error (parseMessage msg))
            then orEmpty (error (parseMessage msg))
            else js "Unknown parsing error") msg) st
  end.
Proof.
  intros H. unfold processMessage. rewrite H. reflexivity.
Qed.

Lemma handleSpecificCommand_clients clientId m st :
  clients (handleSpecificCommand clientId m st) = clients st.
Proof. apply handleSpecificCommand_core. Qed.

(** The registry after a frame that decodes: only the session of the
    connection changes, and it becomes [clientAfter]. *)
Lemma processMessage_clients now clientId msg st c m :
  clients st !! clientId = Some c ->
  success (parseMessage msg) = true ->
  message (parseMessage msg) = Some m ->
  clients (processMessage config now clientId msg st) =
  <[clientId := clientAfter now c m]> (clients st).
Proof.
  intros Hc Hs Hm. unfold processMessage. rewrite Hc, Hs, Hm. simpl negb.
  cbv iota. rewrite handleSpecificCommand_clients.
  match goal with
  | |- clients (if ?b then sendAckMessage _ _ ?x else ?x) = _ =>
      assert (E : clients (if b then sendAckMessage clientId
                                       (orEmpty (ackMessage (parseMessage msg))) x
                           else x) = clients x)
        by (destruct b; [apply sendAckMessage_clients|reflexivity]);
      rewrite E; clear E
  end.
  unfold clientAfter.
  apply map_eq. intros k.
  destruct (decide (k = clientId)) as [->|Hk].
  - rewrite lookup_insert_eq.
    destruct (truthy (Some (uniqueId m)) && negb (truthy (Client.imei c)));
      destruct (frameType m); try destruct (decide (commandWord m = js "GTHBD"));
      simpl; rewrite ?lookup_alter_eq, Hc; reflexivity.
  - rewrite lookup_insert_ne by congruence.
    destruct (truthy (Some (uniqueId m)) && negb (truthy (Client.imei c)));
      destruct (frameType m); try destruct (decide (commandWord m = js "GTHBD"));
      simpl; rewrite ?lookup_alter_ne by congruence; reflexivity.
Qed.

(** Whatever the frame, [processMessage] keeps a session whose device
    identifier is set as it is, but for its counter and heartbeat time. *)
Lemma processMessage_keeps_imei now clientId msg st c i :
  clients st !! clientId = Some c ->
  Client.imei c = Some i -> i <> [] ->
  exists c',
    clients (processMessage config now clientId msg st) !! clientId = Some c' /\
    Client.imei c' = Some i /\
    Client.deviceName c' = Client.deviceName c /\
    Client.socket c' = Client.socket c.
Proof.
  intros Hc Hi Hne.
  destruct (success (parseMessage msg)) eqn:Hs.
  - destruct (message (parseMessage msg)) as [m|] eqn:Hm.
    + exists (clientAfter now c m).
      rewrite (processMessage_clients _ _ _ _ _ _ Hc Hs Hm), lookup_insert_eq.
      unfold clientAfter. rewrite Hi. simpl.
      destruct i; [congruence|]. simpl. rewrite andb_false_r. auto.
    + exists c. unfold processMessage. rewrite Hc, Hs, Hm. simpl. auto.
  - exists c. rewrite processMessage_failure by exact Hs. rewrite Hc. simpl. auto.
Qed.

Lemma processMessages_keeps_imei now clientId msgs st c i :
  clients st !! clientId = Some c ->
  Client.imei c = Some i -> i <> [] ->
  exists c',
    clients (processMessages config now clientId msgs st) !! clientId = Some c' /\
    Client.imei c' = Some i /\
    Client.deviceName c' = Client.deviceName c /\
    Client.socket c' = Client.socket c.
Proof.
  revert st c. induction msgs as [|m msgs IH]; intros st c Hc Hi Hne.
  - exists c. auto.
  - simpl.
    destruct (processMessage_keeps_imei now clientId m st c i Hc Hi Hne)
      as (c1 & Hc1 & Hi1 & Hd1 & Hs1).
    destruct (IH _ c1 Hc1 Hi1 Hne) as (c2 & Hc2 & Hi2 & Hd2 & Hs2).
    exists c2. repeat split; congruence.
Qed.

Lemma handleClientData_keeps_imei now clientId data st c i :
  clients st !! clientId = Some c ->
  Client.imei c = Some i -> i <> [] ->
  exists c',
    clients (handleClientData config now clientId data st) !! clientId
      = Some c' /\
    Client.imei c' = Some i /\
    Client.deviceName c' = Client.deviceName c /\
    Client.socket c' = Client.socket c.
Proof.
  intros Hc Hi Hne. unfold handleClientData. rewrite Hc.
  destruct (negb _).
  - exists c. auto.
  - eapply processMessages_keeps_imei; eauto.
Qed.

Lemma processMessage_no_client now clientId msg st :
  clients st !! clientId = None ->
  processMessage config now clientId msg st = st.
Proof. intros H. unfold processMessage. rewrite H. reflexivity. Qed.

Lemma processMessages_no_client now clientId msgs st :
  clients st !! clientId = None ->
  processMessages config now clientId msgs st = st.
Proof.
  intros H. induction msgs as [|m msgs IH]; [reflexivity|].
  simpl. rewrite processMessage_no_client by exact H. exact IH.
Qed.

Lemma processMessages_app now clientId l1 l2 st :
  processMessages config now clientId (l1 ++ l2) st =
  processMessages config now clientId l2
    (processMessages config now clientId l1 st).
Proof. apply foldl_app. Qed.

Lemma processMessage_failure_core now clientId msg st :
  success (parseMessage msg) = false ->
  sameCore (processMessage config now clientId msg st) st.
Proof.
  intros H. rewrite processMessage_failure by exact H.
  destruct (clients st !! clientId); [apply sameCore_addLog|apply sameCore_refl].
Qed.

End ServerFacts.

Section ServerClaims.

Variable config : ServerConfig.

Implicit Types (st : Server) (clientId msg : jsstring) (now : Z).

(** C5: a session takes the device identifier and name of the first
    decoded frame that carries a non-empty identifier, and once its
    identifier is set no frame and no sequence of reads changes the
    identifier or the name, whatever identifier later frames report. *)
Theorem deviceId_first_writer_wins st clientId c :
  clients st !! clientId = Some c ->
  (forall now msg m,
     truthy (Client.imei c) = false ->
     success (parseMessage msg) = true ->
     message (parseMessage msg) = Some m ->
     uniqueId m <> [] ->
     exists c',
       clients (processMessage config now clientId msg st) !! clientId
         = Some c' /\
       Client.imei c' = Some (uniqueId m) /\
       Client.deviceName c' = Some (deviceName m)) /\
  (forall i,
     Client.imei c = Some i -> i <> [] ->
     (forall now msg,
        exists c',
          clients (processMessage config now clientId msg st) !! clientId
            = Some c' /\
          Client.imei c' = Some i /\
          Client.deviceName c' = Client.deviceName c) /\
     (forall reads,
        exists c',
          clients (handleReads config clientId reads st) !! clientId
            = Some c' /\
          Client.imei c' = Some i /\
          Client.deviceName c' = Client.deviceName c)).
Proof.
  intros Hc. split.
  - intros now msg m Hi Hs Hm Hu.
    exists (clientAfter now c m).
    rewrite (processMessage_clients _ _ _ _ _ _ _ Hc Hs Hm), lookup_insert_eq.
    unfold clientAfter. rewrite Hi.
    destruct (uniqueId m); [congruence|]. simpl. auto.
  - intros i Hi Hne. split.
    + intros now msg.
      destruct (processMessage_keeps_imei config now clientId msg st c i Hc Hi Hne)
        as (c' & H1 & H2 & H3 & _).
      exists c'. auto.
    + intros reads.
      assert (H : exists c',
        clients (handleReads config clientId reads st) !! clientId = Some c' /\
        Client.imei c' = Some i /\
        Client.deviceName c' = Client.deviceName c /\
        Client.socket c' = Client.socket c).
      { revert st c Hc Hi. induction reads as [|[t d] reads IH]; intros st c Hc Hi.
        - exists c. auto.
        - simpl.
          destruct (handleClientData_keeps_imei config t clientId d st c i Hc Hi Hne)
            as (c1 & Hc1 & Hi1 & Hd1 & Hs1).
          destruct (IH _ c1 Hc1 Hi1) as (c2 & Hc2 & Hi2 & Hd2 & Hs2).
          exists c2. repeat split; congruence. }
      destruct H as (c' & H1 & H2 & H3 & _). exists c'. auto.
Qed.

(** C7: a frame that fails to decode leaves the registry and the sockets
    as they were (the session stays, its counter is not incremented,
    nothing is written to its socket) and is reported to the logger; the
    frames around it in the buffer are processed as if it were absent. *)
Theorem decode_error_frame_local now clientId bad st :
  success (parseMessage bad) = false ->
  sameCore (processMessage config now clientId bad st) st /\
  (is_Some (clients st !! clientId) ->
   exists e,
     log (processMessage config now clientId bad st) =
     log st ++ [LogProtocolError clientId e bad]) /\
  (forall before after,
     sameCore (processMessages config now clientId (before ++ bad :: after) st)
              (processMessages config now clientId (before ++ after) st)) /\
  (forall data before after,
     isMessageComplete (trim (toStringAscii data)) = true ->
     extractMessages (trim (toStringAscii data)) = before ++ bad :: after ->
     sameCore (handleClientData config now clientId data st)
              (processMessages config now clientId (before ++ after) st)).
Proof.
  intros Hbad.
  assert (Hseq : forall before after,
     sameCore (processMessages config now clientId (before ++ bad :: after) st)
              (processMessages config now clientId (before ++ after) st)).
  { intros before after. rewrite !processMessages_app. simpl.
    apply processMessages_sameCore, processMessage_failure_core, Hbad. }
  split; [apply processMessage_failure_core, Hbad|]. split; [|split].
  - intros [c Hc]. rewrite processMessage_failure by exact Hbad.
    rewrite Hc. eexists. reflexivity.
  - exact Hseq.
  - intros data before after Hcomplete Hext. unfold handleClientData.
    destruct (clients st !! clientId) as [c|] eqn:Hc.
    + rewrite Hcomplete, Hext. simpl negb. cbv iota. apply Hseq.
    + rewrite processMessages_no_client by exact Hc. apply sameCore_refl.
Qed.

(** C6, as the code has it: a read whose trimmed text holds no terminator
    is not handed to the decoder; the registry and the sockets are
    unchanged and at most an incomplete-message warning is logged.  The
    bytes are not kept: a later read is handled exactly as if this one had
    not arrived. *)
Theorem incomplete_read_dropped now clientId data st :
  isMessageComplete (trim (toStringAscii data)) = false ->
  sameCore (handleClientData config now clientId data st) st /\
  (log (handleClientData config now clientId data st) = log st \/
   log (handleClientData config now clientId data st) =
   log st ++ [LogIncompleteMessage clientId (trim (toStringAscii data))]) /\
  (forall now2 data2,
     sameCore
       (handleClientData config now2 clientId data2
          (handleClientData config now clientId data st))
       (handleClientData config now2 clientId data2 st)).
Proof.
  intros H.
  assert (Hcore : sameCore (handleClientData config now clientId data st) st).
  { unfold handleClientData. destruct (clients st !! clientId);
      [rewrite H; apply sameCore_addLog|apply sameCore_refl]. }
  split; [exact Hcore|]. split.
  - unfold handleClientData. destruct (clients st !! clientId); [|left; reflexivity].
    rewrite H. right. reflexivity.
  - intros now2 data2. apply handleClientData_sameCore, Hcore.
Qed.

End ServerClaims.

Section SampleRuns.

Lemma deviceId_first_writer_wins_witness :
  exists c',
    clients
      (processMessage sampleConfig 7 sampleClientId
         (js "+RESP:GTFRI,80200A0303,111111111111111,OTHER,0,1,20190517022529,002A$")
         identifiedState) !! sampleClientId = Some c' /\
    Client.imei c' = Some (js "865585040014007") /\
    Client.deviceName c' = Some (js "GL33CG").
Proof.
  destruct (deviceId_first_writer_wins sampleConfig identifiedState
              sampleClientId identifiedClient) as [_ H].
  - vm_compute. reflexivity.
  - destruct (H (js "865585040014007")) as [H1 _].
    + reflexivity.
    + discriminate.
    + apply H1.
Defined.

Lemma decode_error_frame_local_witness :
  sameCore
    (processMessage sampleConfig 3 sampleClientId (js "+XYZ:junk$") sampleState)
    sampleState.
Proof.
  apply (decode_error_frame_local sampleConfig 3 sampleClientId
           (js "+XYZ:junk$") sampleState).
  vm_compute. reflexivity.
Defined.

Lemma incomplete_read_dropped_witness :
  sameCore
    (handleClientData sampleConfig 3 sampleClientId
       (js "+ACK:GTHBD,80200A0303,865585040014007,GL33CG,2019051702")
       sampleState)
    sampleState.
Proof.
  apply (incomplete_read_dropped sampleConfig 3 sampleClientId
           (js "+ACK:GTHBD,80200A0303,865585040014007,GL33CG,2019051702")
           sampleState).
  vm_compute. reflexivity.
Defined.

(** A buffer with a frame that does not decode between two that do: both
    are counted and acknowledged, and the failure is logged. *)
Example decode_error_between_frames :
  let st :=
    handleClientData sampleConfig 3 sampleClientId
      (heartbeat29 ++ js "+XYZ:junk$" ++
       js "+RESP:GTFRI,80200A0303,865585040014007,GL33CG,0,1,20190517022529,002A$")
      sampleState in
  Client.messageCount <$> clients st !! sampleClientId = Some 2 /\
  (exists acks,
     written <$> sockets st !! 1 = Some acks /\ length acks = 2 /\
     SackText (js "+SACK:GTHBD,80200A,0029$") ∈ acks /\
     SackText (js "+SACK:002A$") ∈ acks) /\
  protocolErrors (log st) = [(err_unknown_frame, js "+XYZ:junk$")].
Proof.
  intros st. split; [vm_compute; reflexivity|]. split.
  - eexists. split; [vm_compute; reflexivity|].
    split; [reflexivity|]. split; repeat constructor.
  - vm_compute. reflexivity.
Qed.

(** C6 as stated fails.  A frame split across two reads is lost: the first
    part is dropped as incomplete and the second is handed to the decoder
    on its own, where it fails; the same bytes in one read are one decoded
    frame.  And an unterminated fragment that follows a terminator in the
    same read is handed to the decoder with a terminator appended, where
    it may even decode. *)
Lemma split_frame_not_reassembled :
  let part1 :=
    js "+ACK:GTHBD,80200A0303,865585040014007,GL33CG,20190517022529,00" in
  let part2 := js "29$" in
  let oneRead :=
    handleClientData sampleConfig 1 sampleClientId (part1 ++ part2)
      sampleState in
  let twoReads :=
    handleClientData sampleConfig 2 sampleClientId part2
      (handleClientData sampleConfig 1 sampleClientId part1 sampleState) in
  let withTail :=
    handleClientData sampleConfig 1 sampleClientId (heartbeat29 ++ part1)
      sampleState in
  part1 ++ part2 = heartbeat29 /\
  Client.messageCount <$> clients oneRead !! sampleClientId = Some 1 /\
  Client.messageCount <$> clients twoReads !! sampleClientId = Some 0 /\
  written <$> sockets twoReads !! 1 = Some [] /\
  log twoReads =
    [LogIncompleteMessage sampleClientId part1;
     LogProtocolError sampleClientId err_unknown_frame part2] /\
  extractMessages (heartbeat29 ++ part1) =
    [heartbeat29; part1 ++ [TAIL_CHAR]] /\
  Client.messageCount <$> clients withTail !! sampleClientId = Some 2 /\
  (exists acks,
     written <$> sockets withTail !! 1 = Some acks /\ length acks = 2 /\
     SackText (js "+SACK:GTHBD,80200A,00$") ∈ acks).
Proof.
  intros part1 part2 oneRead twoReads withTail.
  do 7 (split; [vm_compute; reflexivity|]).
  eexists. split; [vm_compute; reflexivity|].
  split; [reflexivity|]. repeat constructor.
Qed.

End SampleRuns.

(** ** A socket the server never listens on *)

Section Untouched.

Variable config : ServerConfig.
Variable sock : nat.
Variable s0 : Socket.
Hypothesis s0_listeners : listeners s0 = [].

Implicit Types (st : Server) (clientId msg : jsstring) (now : Z).

Abbreviation inv := (untouched sock s0).

Lemma untouched_addLog e st : inv st -> inv (addLog e st).
Proof. intros H. exact H. Qed.

Lemma untouched_updSocket sock' f st :
  sock' <> sock -> inv st -> inv (updSocket sock' f st).
Proof.
  intros Hne [Hs Hc]. split; [|exact Hc].
  simpl. rewrite lookup_alter_ne by exact Hne. exact Hs.
Qed.

Lemma untouched_updClient clientId f st :
  (forall c, Client.socket (f c) = Client.socket c) ->
  inv st -> inv (updClient clientId f st).
Proof.
  intros Hf [Hs Hc]. split; [exact Hs|].
  intros id c. simpl. rewrite lookup_alter_Some.
  intros [(_ & x & Hx & ->) | (_ & Hx)].
  - rewrite Hf. eapply Hc, Hx.
  - eapply Hc, Hx.
Qed.

Lemma untouched_setClient clientId c st :
  Client.socket c <> sock -> inv st -> inv (setClient clientId c st).
Proof.
  intros Hne [Hs Hc]. split; [exact Hs|].
  intros id c'. simpl. rewrite lookup_insert_Some.
  intros [(_ & <-) | (_ & Hx)]; [exact Hne|eapply Hc, Hx].
Qed.

Lemma untouched_deleteClient clientId st :
  inv st -> inv (deleteClient clientId st).
Proof.
  intros [Hs Hc]. split; [exact Hs|].
  intros id c. simpl. rewrite lookup_delete_Some.
  intros [_ Hx]. eapply Hc, Hx.
Qed.

Lemma untouched_sendAckMessage clientId text st :
  inv st -> inv (sendAckMessage clientId text st).
Proof.
  intros H. unfold sendAckMessage.
  destruct (clients st !! clientId) as [c|] eqn:Hc; [|exact H].
  destruct (sockets st !! Client.socket c) as [s|]; [|exact H].
  destruct (writable s); [|exact H].
  apply untouched_addLog, untouched_updSocket; [|exact H].
  destruct H as [_ H]. eapply H, Hc.
Qed.

Lemma untouched_handleSpecificCommand clientId m st :
  inv st -> inv (handleSpecificCommand clientId m st).
Proof.
  intros H. unfold handleSpecificCommand.
  destruct (commandCategory (commandWord m)); try exact H;
    apply untouched_addLog, H.
Qed.

Lemma untouched_processMessage now clientId msg st :
  inv st -> inv (processMessage config now clientId msg st).
Proof.
  intros H. unfold processMessage.
  destruct (clients st !! clientId) as [c|]; [|exact H].
  destruct (negb _); [apply untouched_addLog, H|].
  destruct (message (parseMessage msg)) as [m|]; [|exact H].
  apply untouched_handleSpecificCommand.
  repeat match goal with
         | |- inv (if ?b then _ else _) => destruct b
         | |- inv (match ?x with _ => _ end) => destruct x
         | |- _ => first [ apply untouched_sendAckMessage
                         | apply untouched_addLog
                         | apply untouched_updClient; [reflexivity|]
                         | exact H ]
         end.
Qed.

Lemma untouched_processMessages now clientId msgs st :
  inv st -> inv (processMessages config now clientId msgs st).
Proof.
  revert st. induction msgs as [|m msgs IH]; intros st H; [exact H|].
  simpl. apply IH, untouched_processMessage, H.
Qed.

Lemma untouched_handleClientData now clientId data st :
  inv st -> inv (handleClientData config now clientId data st).
Proof.
  intros H. unfold handleClientData.
  destruct (clients st !! clientId); [|exact H].
  destruct (negb _); [apply untouched_addLog, H|].
  apply untouched_processMessages, H.
Qed.

Lemma untouched_setupTcpClient now clientId sock' st :
  sock' <> sock -> inv st -> inv (setupTcpClient now clientId sock' st).
Proof.
  intros Hne H. unfold setupTcpClient, addListener.
  repeat apply untouched_updSocket; try exact Hne.
  apply untouched_setClient; [exact Hne|]. apply untouched_addLog, H.
Qed.

Lemma untouched_handleClientDisconnect clientId st :
  inv st -> inv (handleClientDisconnect clientId st).
Proof.
  intros H. unfold handleClientDisconnect. apply untouched_deleteClient.
  destruct (clients st !! clientId); [apply untouched_addLog, H|exact H].
Qed.

Lemma untouched_handleClientError clientId st :
  inv st -> inv (handleClientError clientId st).
Proof.
  intros H. apply untouched_deleteClient, untouched_addLog, H.
Qed.

Lemma untouched_initialDataHandler now sock' clientId data st :
  sock' <> sock -> inv st ->
  inv (initialDataHandler config now sock' clientId data st).
Proof.
  intros Hne H. unfold initialDataHandler.
  destruct (isHttpHealthCheck _).
  - unfold socketEnd, socketWrite, setHttpConnection.
    repeat apply untouched_updSocket; assumption.
  - apply untouched_handleClientData, untouched_setupTcpClient; [exact Hne|].
    apply untouched_updSocket; assumption.
Qed.

Lemma untouched_handleConnection sock' st :
  sock' <> sock -> inv st -> inv (handleConnection config sock' st).
Proof.
  intros Hne H. unfold handleConnection.
  destruct (sockets st !! sock'); [|exact H].
  destruct (_ <=? _)%Z.
  - apply untouched_updSocket; [exact Hne|]. apply untouched_addLog, H.
  - unfold addListener. repeat apply untouched_updSocket; assumption.
Qed.

Lemma untouched_runHandler now sock' data h st :
  sock' <> sock -> inv st -> inv (runHandler config now sock' data h st).
Proof.
  intros Hne H. unfold runHandler.
  destruct (sockets st !! sock') as [s|]; [|exact H].
  destruct h;
    repeat match goal with
           | |- inv (if ?b then _ else _) => destruct b
           end;
    first [ exact H
          | apply untouched_initialDataHandler; assumption
          | apply untouched_handleClientError; assumption
          | apply untouched_handleClientDisconnect; assumption
          | apply untouched_handleClientData; assumption
          | apply untouched_updSocket; [exact Hne|]; try apply untouched_addLog;
            exact H ].
Qed.

Lemma untouched_emit_other now sock' ev data st :
  sock' <> sock -> inv st -> inv (emit config now sock' ev data st).
Proof.
  intros Hne H. unfold emit.
  destruct (sockets st !! sock') as [s|]; [|exact H].
  generalize (filter (fun l : Listener => event l = ev) (listeners s)).
  intros called.
  match goal with |- inv (foldl _ ?st0 _) => assert (H0 : inv st0) end.
  { apply untouched_updSocket; assumption. }
  revert H0. generalize (updSocket sock'
    (fun s1 => mkSocket (remote s1)
       (filter (fun l : Listener => ~ (event l = ev /\ once l = true))
          (listeners s1))
       (isHttpConnection s1) (writable s1) (destroyed s1) (written s1)) st).
  induction called as [|l called IH]; intros st1 H1; [exact H1|].
  simpl. apply IH, untouched_runHandler; assumption.
Qed.

(** An event on a socket without listeners changes nothing. *)
Lemma emit_no_listeners now ev data st :
  sockets st !! sock = Some s0 -> emit config now sock ev data st = st.
Proof.
  intros Hs. unfold emit. rewrite Hs, s0_listeners. simpl.
  destruct st as [cs ss lg]. unfold updSocket. simpl in *. f_equal.
  apply alter_id. intros x Hx. rewrite Hs in Hx. injection Hx as <-.
  revert s0_listeners. generalize s0. intros [r ls h w d wr]. simpl.
  intros ->. reflexivity.
Qed.

Lemma untouched_step now e st :
  (forall r, e <> Connection sock r) -> inv st -> inv (step config now e st).
Proof.
  intros He H. destruct e as [sock' r|sock' ev data]; simpl.
  - assert (Hne : sock' <> sock) by (intros ->; eapply He; reflexivity).
    apply untouched_handleConnection; [exact Hne|].
    destruct H as [Hs Hc]. split; [|exact Hc].
    simpl. rewrite lookup_insert_ne by exact Hne. exact Hs.
  - destruct (decide (sock' = sock)) as [->|Hne].
    + rewrite emit_no_listeners by apply H. exact H.
    + apply untouched_emit_other; assumption.
Qed.

Lemma untouched_run trace st :
  Forall (fun te : Z * Event => forall r, te.2 <> Connection sock r) trace ->
  inv st -> inv (run config trace st).
Proof.
  intros Ht. revert st. induction Ht as [|[t e] trace He _ IH]; intros st H.
  - exact H.
  - simpl. apply IH, untouched_step; assumption.
Qed.

End Untouched.

(** ** Capacity *)

Section Capacity.

Variable config : ServerConfig.

(** C8: when a connection arrives while the registry holds
    [maxConnections] sessions or more, the registry is unchanged, the
    socket is ended with no listener registered and nothing written, and
    the refusal is logged; from then on no event on that socket changes
    the state, and whatever happens on the other sockets, nothing is ever
    written to it and no session is ever bound to it. *)
Theorem connection_refused_at_capacity now sock remote st :
  (maxConnections config <= Z.of_nat (size (clients st)))%Z ->
  (forall id c, clients st !! id = Some c -> Client.socket c <> sock) ->
  let st' := step config now (Connection sock remote) st in
  clients st' = clients st /\
  sockets st' = <[sock := refusedSocket remote]> (sockets st) /\
  log st' = log st ++ [LogConnectionLimit remote] /\
  (forall now2 ev data, emit config now2 sock ev data st' = st') /\
  (forall trace,
     Forall (fun te : Z * Event => forall r, te.2 <> Connection sock r) trace ->
     let final := run config trace st' in
     sockets final !! sock = Some (refusedSocket remote) /\
     (forall id c, clients final !! id = Some c -> Client.socket c <> sock) /\
     (forall now2 ev data, emit config now2 sock ev data final = final)).
Proof.
  intros Hfull Hfresh st'.
  assert (E : st' =
    {| clients := clients st;
       sockets := <[sock := refusedSocket remote]> (sockets st);
       log := log st ++ [LogConnectionLimit remote] |}).
  { unfold st', step, handleConnection. simpl.
    rewrite lookup_insert_eq. simpl.
    apply Z.leb_le in Hfull. rewrite Hfull.
    unfold socketEnd, updSocket, addLog. simpl. f_equal.
    rewrite alter_insert_eq. reflexivity. }
  assert (Hinv : untouched sock (refusedSocket remote) st').
  { rewrite E. split; [apply lookup_insert_eq|exact Hfresh]. }
  rewrite E in *. simpl. repeat split.
  - intros now2 ev data.
    apply (emit_no_listeners config sock (refusedSocket remote));
      [reflexivity|apply Hinv].
  - apply (untouched_run config sock (refusedSocket remote) eq_refl trace _ H Hinv).
  - apply (untouched_run config sock (refusedSocket remote) eq_refl trace _ H Hinv).
  - intros now2 ev data.
    apply (emit_no_listeners config sock (refusedSocket remote));
      [reflexivity|].
    apply (untouched_run config sock (refusedSocket remote) eq_refl trace _ H Hinv).
Qed.

End Capacity.

Lemma connection_refused_at_capacity_witness :
  let st' := step fullConfig 9 (Connection 2 (js "10.0.0.8:40000")) sampleState in
  clients st' = clients sampleState /\
  sockets st' =
    <[2 := refusedSocket (js "10.0.0.8:40000")]> (sockets sampleState) /\
  log st' = [LogConnectionLimit (js "10.0.0.8:40000")].
Proof.
  intros st'.
  destruct (connection_refused_at_capacity fullConfig 9 2
              (js "10.0.0.8:40000") sampleState) as (H1 & H2 & H3 & _).
  - vm_compute. discriminate.
  - intros id c. unfold sampleState. simpl.
    rewrite lookup_singleton_Some. intros [_ <-]. simpl. lia.
  - split; [exact H1|]. split; [exact H2|exact H3].
Defined.

(** Below capacity the connection is accepted: its first read registers a
    session and the heartbeat it carries is acknowledged. *)
Example connection_accepted_below_capacity :
  let st :=
    run sampleConfig
      [(9%Z, Connection 2 (js "10.0.0.8:40000"));
       (10%Z, SocketEmit 2 EvData heartbeat29)]
      sampleState in
  Client.imei <$> clients st !! js "10.0.0.8:40000"
    = Some (Some (js "865585040014007")) /\
  written <$> sockets st !! 2 = Some [SackText (js "+SACK:GTHBD,80200A,0029$")].
Proof. intros st. split; vm_compute; reflexivity. Qed.

(** At capacity the same two events leave no session and write nothing. *)
Example connection_refused_then_data :
  let st :=
    run fullConfig
      [(9%Z, Connection 2 (js "10.0.0.8:40000"));
       (10%Z, SocketEmit 2 EvData heartbeat29)]
      sampleState in
  clients st !! js "10.0.0.8:40000" = None /\
  sockets st !! 2 = Some (refusedSocket (js "10.0.0.8:40000")).
Proof. intros st. split; vm_compute; reflexivity. Qed.

(** ** More about the decoder *)

Section DecoderMore.

Implicit Types (raw text body rest s t : jsstring) (f : BaseMessage).

Lemma trim_ack rest : trim (js "+ACK:" ++ rest) = js "+ACK:" ++ trimEnd rest.
Proof. apply trim_prefix; [reflexivity|reflexivity|discriminate]. Qed.

Lemma trim_sack rest : trim (js "+SACK:" ++ rest) = js "+SACK:" ++ trimEnd rest.
Proof. apply trim_prefix; [reflexivity|reflexivity|discriminate]. Qed.

Lemma parseAckMessage_single_tail body :
  TAIL_CHAR ∉ body ->
  let text := js "+ACK:" ++ body ++ [TAIL_CHAR] in
  let parts := split body FIELD_SEPARATOR in
  parseAckMessage text =
  if length parts <? 6 then parseFailure err_ack
  else
    let m :=
      mkBaseMessage ACK (orEmpty (parts !! 0)) (orEmpty (parts !! 1))
        (orEmpty (parts !! 2)) (orEmpty (parts !! 3)) (orEmpty (parts !! 4))
        (orEmpty (parts !! 5)) text in
    if decide (commandWord m = GTHBD) then
      parseSuccess m true
        (generateSackMessage (Some (commandWord m))
           (Some (fullProtocolVersion m)) (Some (countNumber m)))
    else parseSuccess m false [].
Proof.
  intros H text parts. unfold parseAckMessage.
  change (substringFrom text 5) with (body ++ [TAIL_CHAR]).
  rewrite (replace_tail _ H). reflexivity.
Qed.

Lemma parseMessage_ack_text rest :
  parseMessage (js "+ACK:" ++ rest) =
  if negb (endsWith (trim (js "+ACK:" ++ rest)) [TAIL_CHAR])
  then parseFailure err_no_tail
  else parseAckMessage (trim (js "+ACK:" ++ rest)).
Proof.
  unfold parseMessage. rewrite trim_ack.
  destruct (negb _); reflexivity.
Qed.

Lemma list_front_6 {A} (l : list A) :
  6 <= length l ->
  exists (c v i n t q : A) extra, l = [c; v; i; n; t; q] ++ extra.
Proof.
  intros H.
  destruct l as [|c [|v [|i [|n [|t0 [|q extra]]]]]]; simpl in H; try lia.
  exists c, v, i, n, t0, q, extra. reflexivity.
Qed.

(** An Ack frame text whose only [$] is the terminator: with fewer than 6
    comma fields the decode fails with the Ack format error; with 6 or more
    the six leading fields are mapped in order, whatever follows them, and
    the frame is acknowledged exactly when the command word is the
    heartbeat word. *)
Theorem ack_fields_positional raw body :
  TAIL_CHAR ∉ body ->
  trim raw = js "+ACK:" ++ body ++ [TAIL_CHAR] ->
  let parts := split body FIELD_SEPARATOR in
  (length parts < 6 -> parseMessage raw = parseFailure err_ack) /\
  (6 <= length parts ->
   exists c v i n t q extra,
     parts = [c; v; i; n; t; q] ++ extra /\
     let m := mkBaseMessage ACK c v i n t q (trim raw) in
     parseMessage raw =
     if decide (c = GTHBD)
     then parseSuccess m true
            (generateSackMessage (Some c) (Some v) (Some q))
     else parseSuccess m false []).
Proof.
  intros Hbody Htrim parts.
  assert (Hparse : parseMessage raw =
                   parseAckMessage (js "+ACK:" ++ body ++ [TAIL_CHAR])).
  { rewrite <- parseMessage_trim, Htrim, parseMessage_ack_text.
    rewrite <- Htrim, trim_idem, Htrim.
    change (js "+ACK:" ++ body ++ [TAIL_CHAR])
      with ((js "+ACK:" ++ body) ++ [TAIL_CHAR]) at 1.
    rewrite endsWith_snoc. reflexivity. }
  rewrite Hparse, (parseAckMessage_single_tail _ Hbody). fold parts.
  split.
  - intros Hlt. apply Nat.ltb_lt in Hlt. rewrite Hlt. reflexivity.
  - intros Hge.
    destruct (list_front_6 parts Hge) as (c & v & i & n & t & q & extra & E).
    exists c, v, i, n, t, q, extra. split; [exact E|].
    assert (Hltb : (length parts <? 6) = false) by (apply Nat.ltb_ge; exact Hge).
    rewrite Hltb, Htrim, E. reflexivity.
Qed.

Lemma ack_fields_positional_witness :
  let raw := js "+ACK:GTHBD,80200A0303,865585040014007,GL33CG,20190517022529,0029,x,y$" in
  exists c v i n t q extra,
    split (js "GTHBD,80200A0303,865585040014007,GL33CG,20190517022529,0029,x,y")
      FIELD_SEPARATOR = [c; v; i; n; t; q] ++ extra /\
    let m := mkBaseMessage ACK c v i n t q (trim raw) in
    parseMessage raw =
    if decide (c = GTHBD)
    then parseSuccess m true (generateSackMessage (Some c) (Some v) (Some q))
    else parseSuccess m false [].
Proof.
  intros raw.
  refine (proj2 (ack_fields_positional raw
    (js "GTHBD,80200A0303,865585040014007,GL33CG,20190517022529,0029,x,y")
    _ _) _).
  - apply (bool_decide_unpack _). vm_compute. reflexivity.
  - vm_compute. reflexivity.
  - vm_compute. lia.
Defined.

Lemma length_split s c : length (split s c) <= S (length s).
Proof.
  induction s as [|a s IH]; simpl; [lia|].
  destruct (Ascii.eqb a c); simpl; [lia|].
  destruct (split s c); simpl in *; lia.
Qed.

Lemma length_replace_tail s : length (replace s (js "$") []) <= length s.
Proof.
  induction s as [|a s IH]; [simpl; lia|].
  cbn [replace js list_ascii_of_string startsWith].
  destruct (Ascii.eqb "$" a);
    [simpl; rewrite skipn_O; lia|simpl in *; lia].
Qed.

Lemma identifyFrameType_inv t k :
  identifyFrameType t = Some k ->
  match k with
  | ACK => startsWith t (js "+ACK:") = true
  | RESP => startsWith t (js "+ACK:") = false /\
            startsWith t (js "+RESP:") = true
  | BUFF => startsWith t (js "+ACK:") = false /\
            startsWith t (js "+RESP:") = false /\
            startsWith t (js "+BUFF:") = true
  | SACK => startsWith t (js "+ACK:") = false /\
            startsWith t (js "+RESP:") = false /\
            startsWith t (js "+BUFF:") = false /\
            startsWith t (js "+SACK:") = true
  end.
Proof.
  unfold identifyFrameType.
  destruct (startsWith t (js "+ACK:")); [intros [= <-]; reflexivity|].
  destruct (startsWith t (js "+RESP:")); [intros [= <-]; auto|].
  destruct (startsWith t (js "+BUFF:")); [intros [= <-]; auto|].
  destruct (startsWith t (js "+SACK:")); [intros [= <-]; auto|discriminate].
Qed.

Lemma identifyFrameType_validStart t k :
  identifyFrameType t = Some k ->
  existsb (fun start => startsWith t start)
    [js "+ACK:"; js "+RESP:"; js "+BUFF:"; js "+SACK:"] = true.
Proof.
  intros H. apply identifyFrameType_inv in H. cbn [existsb].
  destruct k; repeat match goal with H : _ /\ _ |- _ => destruct H end;
    repeat match goal with H : startsWith _ _ = _ |- _ => rewrite H end;
    reflexivity.
Qed.

Lemma bodyFields_length k t :
  6 <= length (bodyFields k t) -> 10 <= length t.
Proof.
  unfold bodyFields, substringFrom. intros H.
  pose proof (length_split
    (replace (skipn (prefixLength k) t) (js "$") []) FIELD_SEPARATOR) as H1.
  pose proof (length_replace_tail (skipn (prefixLength k) t)) as H2.
  rewrite length_skipn in H2. destruct k; simpl in *; lia.
Qed.

(** What a successful decode says about its input. *)
Lemma parseMessage_success_inv raw f :
  message (parseMessage raw) = Some f ->
  success (parseMessage raw) = true /\
  error (parseMessage raw) = None /\
  endsWith (trim raw) [TAIL_CHAR] = true /\
  identifyFrameType (trim raw) = Some (frameType f) /\
  frameType f <> SACK /\
  rawMessage f = trim raw /\
  6 <= length (bodyFields (frameType f) (trim raw)) /\
  uniqueId f = orEmpty (bodyFields (frameType f) (trim raw) !! 2).
Proof.
  unfold parseMessage.
  destruct (endsWith (trim raw) [TAIL_CHAR]) eqn:He; [|discriminate].
  simpl negb. cbv iota.
  destruct (identifyFrameType (trim raw)) as [[]|] eqn:Hk; try discriminate.
  - unfold parseAckMessage.
    destruct (_ <? 6) eqn:Hl; [discriminate|]. apply Nat.ltb_ge in Hl.
    destruct (decide _); intros [= <-]; simpl;
      repeat split; try reflexivity; try discriminate; exact Hl.
  - unfold parseRespMessage.
    destruct (_ <? 6) eqn:Hl; [discriminate|]. apply Nat.ltb_ge in Hl.
    intros [= <-]; simpl.
    repeat split; try reflexivity; try discriminate; exact Hl.
  - apply identifyFrameType_inv in Hk as Hp. destruct Hp as (_ & _ & Hp).
    apply startsWith_inv in Hp. simpl length in Hp.
    unfold parseBuffMessage, parseRespMessage.
    assert (E : substringFrom
                  (replace (trim raw) (js "+BUFF:") (js "+RESP:")) 6
                = substringFrom (trim raw) 6).
    { rewrite Hp at 1. rewrite replace_prefix. reflexivity. }
    rewrite E.
    destruct (_ <? 6) eqn:Hl; [discriminate|]. apply Nat.ltb_ge in Hl.
    intros [= <-]; simpl.
    repeat split; try reflexivity; try discriminate; exact Hl.
Qed.

Lemma parseMessage_success_valid raw f :
  message (parseMessage raw) = Some f ->
  validateMessageFormat (trim raw) = true /\ 10 <= length (trim raw).
Proof.
  intros H.
  destruct (parseMessage_success_inv raw f H)
    as (_ & _ & He & Hk & _ & _ & Hl & _).
  apply bodyFields_length in Hl. split; [|exact Hl].
  unfold validateMessageFormat.
  rewrite (identifyFrameType_validStart _ _ Hk), He.
  simpl. apply Nat.ltb_lt. lia.
Qed.

(** A decoded frame is never a Sack frame; its raw text is the trimmed
    input, begins with the prefix of its type, ends with the terminator,
    is at least 10 code units long and passes [validateMessageFormat]. *)
Theorem decoded_frame_shape raw f :
  message (parseMessage raw) = Some f ->
  success (parseMessage raw) = true /\
  error (parseMessage raw) = None /\
  frameType f <> SACK /\
  rawMessage f = trim raw /\
  startsWith (rawMessage f) (FrameType_value (frameType f) ++ js ":") = true /\
  endsWith (rawMessage f) [TAIL_CHAR] = true /\
  10 <= length (rawMessage f) /\
  validateMessageFormat (rawMessage f) = true.
Proof.
  intros H.
  destruct (parseMessage_success_inv raw f H)
    as (Hs & Herr & He & Hk & Hne & Hr & _ & _).
  destruct (parseMessage_success_valid raw f H) as [Hv Hl].
  rewrite Hr. repeat split; try assumption.
  apply identifyFrameType_inv in Hk.
  destruct (frameType f); simpl; intuition.
Qed.

Lemma decoded_frame_shape_witness :
  exists f,
    message (parseMessage (js "  +BUFF:GTFRI,V,865585040014007,N,1,2,T,0001$ "))
      = Some f /\
    frameType f = BUFF /\
    rawMessage f = js "+BUFF:GTFRI,V,865585040014007,N,1,2,T,0001$" /\
    validateMessageFormat (rawMessage f) = true.
Proof.
  eexists. split; [vm_compute; reflexivity|].
  split; [reflexivity|]. split; [reflexivity|].
  eapply (decoded_frame_shape
            (js "  +BUFF:GTFRI,V,865585040014007,N,1,2,T,0001$ ")).
  vm_compute. reflexivity.
Defined.

Lemma includes_char s c : includes s [c] = true <-> c ∈ s.
Proof.
  induction s as [|a s IH]; simpl.
  - split; [discriminate|]. intros H. apply elem_of_nil in H. destruct H.
  - rewrite elem_of_cons, <- IH.
    destruct (Ascii.eqb c a) eqn:E; simpl.
    + apply Ascii.eqb_eq in E. split; auto.
    + split; [auto|]. intros [->|H]; [|exact H].
      rewrite eqb_ascii_refl in E. discriminate.
Qed.

Lemma generateSackMessage_shape c v q :
  exists x,
    generateSackMessage c v q = js "+SACK:" ++ x ++ [TAIL_CHAR] /\ x <> [].
Proof.
  unfold generateSackMessage.
  set (count := if truthy q then orEmpty q else js "0000").
  assert (Hcount : count <> []).
  { unfold count. destruct q as [[|a u]|]; simpl; discriminate. }
  destruct (truthy c && truthy v).
  - exists (orEmpty c ++ js "," ++ substringTo (orEmpty v) 6 ++ js "," ++ count).
    split.
    + rewrite <- !app_assoc. reflexivity.
    + destruct (orEmpty c); discriminate.
  - exists count. split; [reflexivity|exact Hcount].
Qed.

(** Whatever its arguments, the text built by [generateSackMessage] passes
    [validateMessageFormat] and holds a terminator, and it is never
    decoded: [parseMessage] rejects it as an unsupported frame type and
    [extractImei] finds no identifier in it. *)
Theorem sack_never_decoded c v q :
  let ack := generateSackMessage c v q in
  parseMessage ack = parseFailure (err_unsupported SACK) /\
  validateMessageFormat ack = true /\
  isMessageComplete ack = true /\
  extractImei ack = None.
Proof.
  intros ack. destruct (generateSackMessage_shape c v q) as (x & E & Hx).
  unfold ack. rewrite E. clear E ack.
  assert (Hend : endsWith (js "+SACK:" ++ x ++ [TAIL_CHAR]) [TAIL_CHAR] = true).
  { change (js "+SACK:" ++ x ++ [TAIL_CHAR])
      with ((js "+SACK:" ++ x) ++ [TAIL_CHAR]).
    apply endsWith_snoc. }
  assert (Htrim : trim (js "+SACK:" ++ x ++ [TAIL_CHAR])
                  = js "+SACK:" ++ x ++ [TAIL_CHAR]).
  { apply (trim_frame "+"%char (js "SACK:" ++ x) TAIL_CHAR); reflexivity. }
  assert (Hvalid :
    validateMessageFormat (js "+SACK:" ++ x ++ [TAIL_CHAR]) = true).
  { unfold validateMessageFormat. rewrite Hend.
    destruct x; [congruence|]. reflexivity. }
  split; [|split; [exact Hvalid|split]].
  - unfold parseMessage. rewrite Htrim, Hend. reflexivity.
  - unfold isMessageComplete. apply includes_char.
    rewrite !elem_of_app. right. right. apply list_elem_of_singleton.
    reflexivity.
  - unfold extractImei. rewrite Hvalid. reflexivity.
Qed.

(** On the raw text of a decoded frame [extractImei] returns the decoded
    device identifier with its white space trimmed, and [null] when
    nothing is left of it. *)
Theorem extractImei_decoded raw f :
  message (parseMessage raw) = Some f ->
  extractImei (rawMessage f) =
  match trim (uniqueId f) with
  | [] => None
  | i => Some i
  end.
Proof.
  intros H.
  destruct (parseMessage_success_inv raw f H)
    as (_ & _ & _ & Hk & Hne & Hr & Hl & Hu).
  destruct (parseMessage_success_valid raw f H) as [Hv _].
  rewrite Hr, Hu. unfold extractImei. rewrite Hv. simpl negb. cbv iota.
  assert (Hparts :
    (if startsWith (trim raw) (js "+ACK:") then
       Some (split (replace (substringFrom (trim raw) 5) (js "$") [])
               FIELD_SEPARATOR)
     else if startsWith (trim raw) (js "+RESP:")
             || startsWith (trim raw) (js "+BUFF:") then
       Some (split (replace (substringFrom (trim raw) 6) (js "$") [])
               FIELD_SEPARATOR)
     else None) = Some (bodyFields (frameType f) (trim raw))).
  { apply identifyFrameType_inv in Hk.
    destruct (frameType f); try congruence;
      repeat match goal with H : _ /\ _ |- _ => destruct H end;
      repeat match goal with H : startsWith _ _ = _ |- _ => rewrite H end;
      reflexivity. }
  rewrite Hparts.
  destruct (bodyFields (frameType f) (trim raw) !! 2) as [u|] eqn:E.
  - simpl orEmpty. destruct u as [|a u]; [reflexivity|].
    simpl truthy at 1. destruct (trim (a :: u)); reflexivity.
  - apply lookup_ge_None in E. lia.
Qed.

Lemma extractImei_decoded_witness :
  exists f,
    message
      (parseMessage (js "+RESP:GTFRI,V, 865585040014007 ,N,1,2,T,0001$"))
      = Some f /\
    uniqueId f = js " 865585040014007 " /\
    extractImei (rawMessage f) = Some (js "865585040014007").
Proof.
  eexists. split; [vm_compute; reflexivity|]. split; [reflexivity|].
  rewrite (extractImei_decoded
             (js "+RESP:GTFRI,V, 865585040014007 ,N,1,2,T,0001$"))
    by (vm_compute; reflexivity).
  vm_compute. reflexivity.
Defined.

(** An identifier returned by [extractImei] is never empty and carries no
    white space at either end, and it comes only from a text that passes
    [validateMessageFormat] and begins with the Ack, Resp or Buff
    prefix. *)
Theorem extractImei_sound text i :
  extractImei text = Some i ->
  i <> [] /\ trim i = i /\
  validateMessageFormat text = true /\
  (startsWith text (js "+ACK:") = true \/
   startsWith text (js "+RESP:") = true \/
   startsWith text (js "+BUFF:") = true).
Proof.
  unfold extractImei.
  destruct (validateMessageFormat text); [|discriminate]. simpl negb. cbv iota.
  intros H.
  assert (Hstart : startsWith text (js "+ACK:") = true \/
                   startsWith text (js "+RESP:") = true \/
                   startsWith text (js "+BUFF:") = true).
  { destruct (startsWith text (js "+ACK:")); [auto|].
    destruct (startsWith text (js "+RESP:")); [auto|].
    destruct (startsWith text (js "+BUFF:")); [auto|]. discriminate. }
  assert (Hi : exists u, trim u = i /\ i <> []).
  { match type of H with
    | match ?parts with _ => _ end = _ =>
        destruct parts as [l|]; [|discriminate]
    end.
    destruct (l !! 2) as [u|]; [|discriminate]. simpl orEmpty in H.
    exists u.
    destruct (truthy (Some u) && truthy (Some (trim u))) eqn:E;
      [|discriminate].
    apply andb_true_iff in E as [_ E]. injection H as <-.
    split; [reflexivity|]. destruct (trim u); discriminate. }
  destruct Hi as (u & <- & Hne).
  repeat split; auto. apply trim_idem.
Qed.

Lemma extractImei_sound_witness :
  js "865585040014007" <> [] /\
  trim (js "865585040014007") = js "865585040014007".
Proof.
  destruct (extractImei_sound
              (js "+ACK:GTHBD,80200A0303, 865585040014007$")
              (js "865585040014007")) as (H1 & H2 & _).
  - vm_compute. reflexivity.
  - split; assumption.
Defined.

End DecoderMore.

(** ** More about frame extraction *)

Section ExtractionMore.

Implicit Types (buffer tl : jsstring) (segs : list jsstring).

Lemma keepParts_elements parts :
  Forall (fun p => TAIL_CHAR ∉ p) parts ->
  Forall (fun m => exists p,
            m = trim p ++ [TAIL_CHAR] /\ (TAIL_CHAR ∉ p) /\ trim p <> [])
    (keepParts parts).
Proof.
  induction 1 as [|p parts Hp _ IH]; [constructor|].
  rewrite keepParts_cons.
  destruct (trim p) as [|c u] eqn:E; [exact IH|].
  constructor; [|exact IH].
  exists p. rewrite E. repeat split; [exact Hp|discriminate].
Qed.

Lemma extractMessages_elements buffer :
  Forall (fun m => exists p,
            m = trim p ++ [TAIL_CHAR] /\ (TAIL_CHAR ∉ p) /\ trim p <> [])
    (extractMessages buffer).
Proof.
  rewrite extractMessages_keepParts. apply keepParts_elements.
  destruct (decide _); [apply Forall_removelast|];
    apply split_Forall_no_sep.
Qed.

Lemma framesBuffer_app segs1 segs2 :
  framesBuffer (segs1 ++ segs2) = framesBuffer segs1 ++ framesBuffer segs2.
Proof. unfold framesBuffer. rewrite map_app, concat_app. reflexivity. Qed.

Lemma framesBuffer_single (s : jsstring) :
  framesBuffer [s] = s ++ [TAIL_CHAR].
Proof. unfold framesBuffer. simpl. apply app_nil_r. Qed.

(** Every buffer is a run of terminated segments followed by an
    unterminated tail. *)
Lemma buffer_decompose buffer :
  exists segs tl,
    Forall (fun s => TAIL_CHAR ∉ s) segs /\ (TAIL_CHAR ∉ tl) /\
    buffer = framesBuffer segs ++ tl.
Proof.
  induction buffer as [|c b (segs & tl & Hsegs & Htl & E)].
  - exists [], []. split; [constructor|]. split; [apply not_elem_of_nil|].
    reflexivity.
  - destruct (decide (c = TAIL_CHAR)) as [->|Hc].
    + exists ([] :: segs), tl.
      split; [constructor; [apply not_elem_of_nil|exact Hsegs]|].
      split; [exact Htl|]. rewrite E. reflexivity.
    + destruct segs as [|s segs].
      * exists [], (c :: tl). split; [constructor|]. split.
        -- apply not_elem_of_cons. split; [congruence|exact Htl].
        -- rewrite E. reflexivity.
      * inversion Hsegs as [|? ? Hs Hrest]; subst.
        exists ((c :: s) :: segs), tl. split; [|split; [exact Htl|reflexivity]].
        constructor; [|exact Hrest].
        apply not_elem_of_cons. split; [congruence|exact Hs].
Qed.

(** Extracting from a single extracted message gives that message back. *)
Theorem extractMessages_reextract buffer :
  Forall (fun m => extractMessages m = [m]) (extractMessages buffer).
Proof.
  eapply Forall_impl; [apply extractMessages_elements|].
  intros m (p & -> & Hp & Hne). simpl.
  rewrite <- (framesBuffer_single (trim p)) at 1.
  rewrite <- (app_nil_r (framesBuffer [trim p])).
  rewrite extractMessages_segments.
  - rewrite app_nil_r, keepParts_cons, trim_idem.
    destruct (trim p); [congruence|reflexivity].
  - constructor; [apply trim_no_tail, Hp|constructor].
  - apply not_elem_of_nil.
Qed.

(** Bytes after the last terminator are not held back: when they are not
    blank they come out as one more message, trimmed and with a terminator
    appended; when they are blank they are dropped. *)
Theorem extractMessages_unterminated_tail segs tl :
  Forall (fun s => TAIL_CHAR ∉ s) segs -> TAIL_CHAR ∉ tl ->
  extractMessages (framesBuffer segs ++ tl) =
  extractMessages (framesBuffer segs) ++
  match trim tl with
  | [] => []
  | t => [t ++ [TAIL_CHAR]]
  end.
Proof.
  intros Hsegs Htl.
  rewrite (extractMessages_segments _ _ Hsegs Htl).
  rewrite <- (app_nil_r (framesBuffer segs)) at 1.
  rewrite (extractMessages_segments _ [] Hsegs) by apply not_elem_of_nil.
  rewrite app_nil_r. f_equal.
  destruct tl as [|c tl]; [reflexivity|].
  rewrite keepParts_cons. destruct (trim (c :: tl)); reflexivity.
Qed.

Lemma extractMessages_unterminated_tail_witness :
  extractMessages (js "+ACK:a,b$+ACK:c,") = [js "+ACK:a,b$"; js "+ACK:c,$"].
Proof.
  change (js "+ACK:a,b$+ACK:c,")
    with (framesBuffer [js "+ACK:a,b"] ++ js "+ACK:c,").
  cbv zeta.
  rewrite extractMessages_unterminated_tail.
  - vm_compute. reflexivity.
  - constructor; [|constructor].
    apply (bool_decide_unpack _). vm_compute. reflexivity.
  - apply (bool_decide_unpack _). vm_compute. reflexivity.
Defined.

Lemma endsWith_tail_decompose segs tl :
  TAIL_CHAR ∉ tl ->
  endsWith (framesBuffer segs ++ tl) [TAIL_CHAR] = true -> tl = [].
Proof.
  intros Htl H. apply endsWith_inv in H as [b E].
  destruct (rev tl) as [|c r] eqn:Er.
  - rewrite <- (rev_involutive tl), Er. reflexivity.
  - exfalso. apply Htl.
    assert (Htl' : tl = rev r ++ [c])
      by (rewrite <- (rev_involutive tl), Er; reflexivity).
    rewrite Htl', app_assoc in E. apply app_inj_tail in E as [_ ->].
    rewrite Htl'. rewrite elem_of_app. right.
    apply list_elem_of_singleton. reflexivity.
Qed.

Lemma extractMessages_concat buffer1 buffer2 :
  buffer1 = [] \/ endsWith buffer1 [TAIL_CHAR] = true ->
  extractMessages (buffer1 ++ buffer2) =
  extractMessages buffer1 ++ extractMessages buffer2.
Proof.
  intros H.
  destruct (buffer_decompose buffer1) as (segs1 & tl1 & Hs1 & Ht1 & E1).
  destruct (buffer_decompose buffer2) as (segs2 & tl2 & Hs2 & Ht2 & E2).
  assert (Htl : tl1 = []).
  { destruct H as [->|H].
    - destruct tl1; [reflexivity|].
      destruct segs1; simpl in E1; [discriminate|].
      unfold framesBuffer in E1. simpl in E1.
      destruct l; discriminate.
    - rewrite E1 in H. eapply endsWith_tail_decompose; eauto. }
  subst tl1. rewrite app_nil_r in E1. subst buffer1 buffer2.
  rewrite app_assoc, <- framesBuffer_app.
  rewrite extractMessages_segments;
    [|apply Forall_app; split; assumption|exact Ht2].
  rewrite keepParts_app, <- app_assoc.
  rewrite (extractMessages_segments _ _ Hs2 Ht2).
  rewrite <- (app_nil_r (framesBuffer segs1)) at 1.
  rewrite (extractMessages_segments _ [] Hs1) by apply not_elem_of_nil.
  rewrite app_nil_r. reflexivity.
Qed.

(** Extraction distributes over concatenation after a terminator: when the
    first buffer is empty or ends with the terminator, the messages of the
    concatenation are those of the first buffer followed by those of the
    second. *)
Theorem extractMessages_app buffer1 buffer2 :
  buffer1 = [] \/ endsWith buffer1 [TAIL_CHAR] = true ->
  extractMessages (buffer1 ++ buffer2) =
  extractMessages buffer1 ++ extractMessages buffer2.
Proof. exact (extractMessages_concat buffer1 buffer2). Qed.

Lemma extractMessages_app_witness :
  extractMessages (js "+ACK:a$ $" ++ js " +RESP:b$+BUFF:c") =
  [js "+ACK:a$"] ++ [js "+RESP:b$"; js "+BUFF:c$"].
Proof.
  rewrite extractMessages_app.
  - vm_compute. reflexivity.
  - right. vm_compute. reflexivity.
Defined.

Lemma parseMessage_with_tail m :
  trim m = m -> endsWith m [TAIL_CHAR] = true ->
  error (parseMessage m) <> Some err_no_tail.
Proof.
  intros Ht He. unfold parseMessage. rewrite Ht, He. simpl negb. cbv iota.
  destruct (identifyFrameType m) as [[]|].
  - destruct (parseAckMessage_shape m)
      as [-> | (c & v & i & n & t & q & ->)]; [cbv; discriminate|].
    cbv zeta. destruct (decide _); discriminate.
  - destruct (parseRespMessage_shape m)
      as [-> | (c & v & i & n & t & q & ->)]; [cbv; discriminate|discriminate].
  - unfold parseBuffMessage.
    destruct (parseRespMessage_shape
                (replace m (js "+BUFF:") (js "+RESP:")))
      as [-> | (c & v & i & n & t & q & ->)]; [cbv; discriminate|discriminate].
  - cbv. discriminate.
  - cbv. discriminate.
Qed.

(** The messages handed to the decoder by the read loop are already
    trimmed and terminated: decoding one never fails for a missing
    terminator, and when it succeeds the raw text kept in the frame is the
    extracted message itself. *)
Theorem extracted_message_decoding buffer :
  Forall
    (fun m =>
       trim m = m /\
       error (parseMessage m) <> Some err_no_tail /\
       forall f, message (parseMessage m) = Some f -> rawMessage f = m)
    (extractMessages buffer).
Proof.
  eapply Forall_impl; [apply extractMessages_Forall_wellFramed|].
  intros m (He & _ & _ & Ht & _). simpl.
  split; [exact Ht|]. split; [apply parseMessage_with_tail; assumption|].
  intros f Hf. rewrite (rawMessage_parseMessage _ _ Hf). exact Ht.
Qed.

End ExtractionMore.

(** ** More about frame processing *)

Section ProcessingMore.

Variable config : ServerConfig.

Implicit Types (st : Server) (clientId msg : jsstring) (now : Z).

Lemma parseMessage_success_message msg :
  success (parseMessage msg) = true ->
  exists f, message (parseMessage msg) = Some f.
Proof.
  unfold parseMessage.
  destruct (negb _); [discriminate|].
  destruct (identifyFrameType (trim msg)) as [[]|]; try discriminate.
  - destruct (parseAckMessage_shape (trim msg))
      as [-> | (c & v & i & n & t & q & ->)]; [discriminate|].
    cbv zeta. destruct (decide _); eexists; reflexivity.
  - destruct (parseRespMessage_shape (trim msg))
      as [-> | (c & v & i & n & t & q & ->)]; [discriminate|].
    eexists; reflexivity.
  - unfold parseBuffMessage.
    destruct (parseRespMessage_shape
                (replace (trim msg) (js "+BUFF:") (js "+RESP:")))
      as [-> | (c & v & i & n & t & q & ->)]; [discriminate|].
    eexists; reflexivity.
Qed.

Lemma ackText_truthy f : truthy (Some (ackText f)) = true.
Proof.
  unfold ackText. destruct (frameType f), (fullProtocolVersion f); reflexivity.
Qed.

(** [processMessage] on a frame that decodes: the state built up to the
    acknowledgment, then the acknowledgment when it is switched on and
    due, then the command log. *)
Lemma processMessage_success now clientId msg st c f :
  clients st !! clientId = Some c ->
  message (parseMessage msg) = Some f ->
  processMessage config now clientId msg st =
  handleSpecificCommand clientId f
    (if enableSack config && ackRequired f
     then sendAckMessage clientId (ackText f) (beforeAck now clientId c f st)
     else beforeAck now clientId c f st).
Proof.
  intros Hc Hf.
  destruct (parseMessage_success_inv msg f Hf) as (Hs & _).
  destruct (ack_function msg f Hf) as [Hn Ha].
  unfold processMessage. rewrite Hc, Hs, Hf, Hn, Ha. simpl negb. cbv iota.
  f_equal.
  assert (Hcond :
    enableSack config
    && match Some (ackRequired f) with Some true => true | _ => false end
    && truthy (Some (if ackRequired f then ackText f else []))
    = enableSack config && ackRequired f).
  { destruct (enableSack config), (ackRequired f); cbn [andb];
      rewrite ?ackText_truthy; reflexivity. }
  rewrite Hcond.
  assert (Hack : forall x,
    (if enableSack config && ackRequired f
     then sendAckMessage clientId
            (orEmpty (Some (if ackRequired f then ackText f else []))) x
     else x) =
    (if enableSack config && ackRequired f
     then sendAckMessage clientId (ackText f) x else x)).
  { intros x. destruct (enableSack config), (ackRequired f); reflexivity. }
  rewrite Hack. clear Hack Hcond.
  match goal with
  | |- (if _ then sendAckMessage _ _ ?x else ?x) = _ =>
      assert (E : x = beforeAck now clientId c f st); [|rewrite E; reflexivity]
  end.
  unfold beforeAck, clientAfter, updClient, addLog.
  destruct (truthy (Some (uniqueId f)) && negb (truthy (Client.imei c)));
    destruct (frameType f); try destruct (decide (commandWord f = js "GTHBD"));
    destruct st as [cs ss lg]; cbn [clients sockets log] in *;
    (f_equal;
     [apply map_eq; intros k; destruct (decide (k = clientId)) as [->|Hk];
      [rewrite lookup_insert_eq, ?lookup_alter_eq, Hc; reflexivity
      |rewrite lookup_insert_ne by congruence;
       rewrite ?lookup_alter_ne by congruence; reflexivity]
     |rewrite <- ?app_assoc; reflexivity]).
Qed.

Lemma processMessage_cases now clientId msg st :
  (clients st !! clientId = None /\
   processMessage config now clientId msg st = st) \/
  (exists c, clients st !! clientId = Some c /\
     success (parseMessage msg) = false /\
     sameCore (processMessage config now clientId msg st) st) \/
  (exists c f, clients st !! clientId = Some c /\
     success (parseMessage msg) = true /\
     message (parseMessage msg) = Some f).
Proof.
  destruct (clients st !! clientId) as [c|] eqn:Hc.
  - right. destruct (success (parseMessage msg)) eqn:Hs.
    + right. destruct (parseMessage_success_message msg Hs) as [f Hf].
      exists c, f. auto.
    + left. exists c. repeat split; try reflexivity.
      * apply processMessage_failure_core, Hs.
      * apply processMessage_failure_core, Hs.
  - left. split; [reflexivity|]. apply processMessage_no_client, Hc.
Qed.

Lemma processMessage_lookup_ne now clientId msg st id' :
  id' <> clientId ->
  clients (processMessage config now clientId msg st) !! id'
  = clients st !! id'.
Proof.
  intros Hne.
  destruct (processMessage_cases now clientId msg st)
    as [[_ ->] | [(c & _ & _ & [-> _]) | (c & f & Hc & Hs & Hf)]];
    try reflexivity.
  rewrite (processMessage_clients _ _ _ _ _ _ _ Hc Hs Hf).
  apply lookup_insert_ne. congruence.
Qed.

Lemma processMessage_dom now clientId msg st :
  dom (clients (processMessage config now clientId msg st)) = dom (clients st).
Proof.
  destruct (processMessage_cases now clientId msg st)
    as [[_ ->] | [(c & _ & _ & [-> _]) | (c & f & Hc & Hs & Hf)]];
    try reflexivity.
  rewrite (processMessage_clients _ _ _ _ _ _ _ Hc Hs Hf).
  apply dom_insert_lookup_L. rewrite Hc. eauto.
Qed.

Lemma handleClientData_sessions now clientId data st :
  dom (clients (handleClientData config now clientId data st))
  = dom (clients st) /\
  forall id', id' <> clientId ->
    clients (handleClientData config now clientId data st) !! id'
    = clients st !! id'.
Proof.
  unfold handleClientData.
  destruct (clients st !! clientId); [|split; reflexivity].
  destruct (negb _); [split; reflexivity|].
  generalize (extractMessages (trim (toStringAscii data))). intros msgs.
  revert st. induction msgs as [|m msgs IH]; intros st; [split; reflexivity|].
  simpl. destruct (IH (processMessage config now clientId m st)) as [H1 H2].
  split.
  - rewrite H1. apply processMessage_dom.
  - intros id' Hne. rewrite (H2 id' Hne).
    apply processMessage_lookup_ne, Hne.
Qed.

(** Processing a read never adds or removes a session, and leaves the
    sessions of the other connections as they are. *)
Theorem read_touches_one_session now clientId data st :
  dom (clients (handleClientData config now clientId data st))
  = dom (clients st) /\
  forall id', id' <> clientId ->
    clients (handleClientData config now clientId data st) !! id'
    = clients st !! id'.
Proof. exact (handleClientData_sessions now clientId data st). Qed.

Lemma processMessages_messageCount now clientId msgs st c :
  clients st !! clientId = Some c ->
  exists c',
    clients (processMessages config now clientId msgs st) !! clientId
      = Some c' /\
    Client.messageCount c' = Client.messageCount c + countDecoded msgs /\
    Client.socket c' = Client.socket c /\
    Client.connected c' = Client.connected c /\
    Client.isAlive c' = Client.isAlive c.
Proof.
  revert st c. induction msgs as [|m msgs IH]; intros st c Hc.
  - exists c. unfold countDecoded. simpl. repeat split; auto; lia.
  - simpl. unfold countDecoded.
    destruct (processMessage_cases now clientId m st)
      as [[Hn _] | [(c0 & Hc0 & Hs & [Hcl _]) | (c0 & f & Hc0 & Hs & Hf)]].
    + congruence.
    + rewrite filter_cons_False by congruence.
      apply IH. rewrite Hcl. exact Hc.
    + rewrite filter_cons_True by exact Hs.
      assert (c0 = c) by congruence. subst c0.
      destruct (IH (processMessage config now clientId m st)
                   (clientAfter now c f)) as (c' & H1 & H2 & H3 & H4 & H5).
      { rewrite (processMessage_clients _ _ _ _ _ _ _ Hc Hs Hf).
        apply lookup_insert_eq. }
      exists c'. split; [exact H1|].
      unfold countDecoded in H2. simpl in *. repeat split; try congruence. lia.
Qed.

(** The counter of a session grows with each read by the number of
    extracted messages that decode, and by nothing when the read holds no
    terminator; the session keeps its socket and its opening time. *)
Theorem messageCount_counts_decoded now clientId data st c :
  clients st !! clientId = Some c ->
  exists c',
    clients (handleClientData config now clientId data st) !! clientId
      = Some c' /\
    Client.messageCount c' =
      Client.messageCount c +
      (if isMessageComplete (trim (toStringAscii data))
       then countDecoded (extractMessages (trim (toStringAscii data)))
       else 0) /\
    Client.socket c' = Client.socket c /\
    Client.connected c' = Client.connected c.
Proof.
  intros Hc. unfold handleClientData. rewrite Hc.
  destruct (isMessageComplete (trim (toStringAscii data))); simpl.
  - destruct (processMessages_messageCount now clientId
                (extractMessages (trim (toStringAscii data))) st c Hc)
      as (c' & H1 & H2 & H3 & H4 & _).
    exists c'. auto.
  - exists c. repeat split; auto.
Qed.

Lemma sendAckMessage_beforeAck now clientId text st c f :
  sendAckMessage clientId text (beforeAck now clientId c f st) =
  match sockets st !! Client.socket c with
  | Some s =>
      if writable s then
        addLog (LogSackSent clientId text)
          (socketWrite (Client.socket c) (SackText text)
             (beforeAck now clientId c f st))
      else beforeAck now clientId c f st
  | None => beforeAck now clientId c f st
  end.
Proof.
  unfold sendAckMessage. cbn [beforeAck clients sockets].
  rewrite lookup_insert_eq. reflexivity.
Qed.

Lemma processMessage_sockets now clientId msg st c f :
  clients st !! clientId = Some c ->
  message (parseMessage msg) = Some f ->
  sockets (processMessage config now clientId msg st) =
  match sockets st !! Client.socket c with
  | Some s =>
      if enableSack config && ackRequired f && writable s then
        <[Client.socket c :=
            mkSocket (remote s) (listeners s) (isHttpConnection s)
              (writable s) (destroyed s)
              (written s ++ [SackText (ackText f)])]> (sockets st)
      else sockets st
  | None => sockets st
  end.
Proof.
  intros Hc Hf. rewrite (processMessage_success _ _ _ _ _ _ Hc Hf).
  destruct (handleSpecificCommand_core clientId f
    (if enableSack config && ackRequired f
     then sendAckMessage clientId (ackText f) (beforeAck now clientId c f st)
     else beforeAck now clientId c f st)) as [_ ->].
  destruct (enableSack config && ackRequired f).
  - rewrite sendAckMessage_beforeAck.
    destruct (sockets st !! Client.socket c) as [s|] eqn:Hs; [|reflexivity].
    simpl andb. destruct (writable s) eqn:Hw; [|reflexivity].
    cbn [addLog socketWrite updSocket beforeAck sockets].
    apply map_eq. intros k.
    destruct (decide (k = Client.socket c)) as [->|Hk].
    + rewrite lookup_alter_eq, lookup_insert_eq, Hs. simpl.
      rewrite Hw. reflexivity.
    + rewrite lookup_alter_ne, lookup_insert_ne by congruence. reflexivity.
  - destruct (sockets st !! Client.socket c); reflexivity.
Qed.

(** What a decoded frame writes: when acknowledgments are switched on,
    the frame is one that is acknowledged and the socket of the session is
    writable, exactly its acknowledgment text is appended to what was
    written to that socket; otherwise nothing is written.  No other socket
    changes, and nothing of the socket changes but what was written. *)
Theorem ack_written_when_due now clientId msg st c f s :
  clients st !! clientId = Some c ->
  message (parseMessage msg) = Some f ->
  sockets st !! Client.socket c = Some s ->
  sockets (processMessage config now clientId msg st) =
  if enableSack config && ackRequired f && writable s then
    <[Client.socket c :=
        mkSocket (remote s) (listeners s) (isHttpConnection s) (writable s)
          (destroyed s) (written s ++ [SackText (ackText f)])]> (sockets st)
  else sockets st.
Proof.
  intros Hc Hf Hs.
  rewrite (processMessage_sockets _ _ _ _ _ _ Hc Hf), Hs. reflexivity.
Qed.

Lemma processMessage_sockets_disabled now clientId msg st :
  enableSack config = false ->
  sockets (processMessage config now clientId msg st) = sockets st.
Proof.
  intros Hoff.
  destruct (processMessage_cases now clientId msg st)
    as [[_ ->] | [(c & _ & _ & [_ ->]) | (c & f & Hc & Hs & Hf)]];
    try reflexivity.
  rewrite (processMessage_sockets _ _ _ _ _ _ Hc Hf), Hoff.
  destruct (sockets st !! Client.socket c); reflexivity.
Qed.

(** With acknowledgments switched off no read writes anything: the
    sockets are left exactly as they were. *)
Theorem nothing_written_when_sack_disabled now clientId data st :
  enableSack config = false ->
  sockets (handleClientData config now clientId data st) = sockets st.
Proof.
  intros Hoff. unfold handleClientData.
  destruct (clients st !! clientId); [|reflexivity].
  destruct (negb _); [reflexivity|].
  generalize (extractMessages (trim (toStringAscii data))). intros msgs.
  revert st. induction msgs as [|m msgs IH]; intros st; [reflexivity|].
  simpl. rewrite IH. apply processMessage_sockets_disabled, Hoff.
Qed.

Lemma withWritten_nil s : withWritten s [] = s.
Proof. destruct s. unfold withWritten. simpl. rewrite app_nil_r. reflexivity. Qed.

Lemma withWritten_app s w1 w2 :
  withWritten (withWritten s w1) w2 = withWritten s (w1 ++ w2).
Proof. unfold withWritten. simpl. rewrite app_assoc. reflexivity. Qed.

Lemma processMessage_appends now clientId msg st k :
  match sockets st !! k with
  | None => sockets (processMessage config now clientId msg st) !! k = None
  | Some s =>
      exists w,
        sockets (processMessage config now clientId msg st) !! k
        = Some (withWritten s w) /\
        Forall (fun x => exists text, x = SackText text) w
  end.
Proof.
  assert (Hsame :
    sockets (processMessage config now clientId msg st) = sockets st ->
    match sockets st !! k with
    | None => sockets (processMessage config now clientId msg st) !! k = None
    | Some s =>
        exists w,
          sockets (processMessage config now clientId msg st) !! k
          = Some (withWritten s w) /\
          Forall (fun x => exists text, x = SackText text) w
    end).
  { intros ->. destruct (sockets st !! k) as [s|]; [|reflexivity].
    exists []. rewrite withWritten_nil. split; [reflexivity|constructor]. }
  destruct (processMessage_cases now clientId msg st)
    as [[_ E] | [(c & _ & _ & [_ E]) | (c & f & Hc & Hs & Hf)]].
  - apply Hsame. rewrite E. reflexivity.
  - apply Hsame, E.
  - pose proof (processMessage_sockets now clientId msg st c f Hc Hf) as E.
    destruct (sockets st !! Client.socket c) as [s|] eqn:Hsock;
      [|apply Hsame, E].
    destruct (enableSack config && ackRequired f && writable s);
      [|apply Hsame, E].
    rewrite E. destruct (decide (k = Client.socket c)) as [->|Hk].
    + rewrite Hsock, lookup_insert_eq.
      exists [SackText (ackText f)]. split; [reflexivity|].
      constructor; [eauto|constructor].
    + rewrite lookup_insert_ne by congruence.
      destruct (sockets st !! k) as [s'|]; [|reflexivity].
      exists []. rewrite withWritten_nil. split; [reflexivity|constructor].
Qed.

Lemma handleClientData_appends now clientId data st k :
  match sockets st !! k with
  | None => sockets (handleClientData config now clientId data st) !! k = None
  | Some s =>
      exists w,
        sockets (handleClientData config now clientId data st) !! k
        = Some (withWritten s w) /\
        Forall (fun x => exists text, x = SackText text) w
  end.
Proof.
  assert (Hrefl : match sockets st !! k with
    | None => sockets st !! k = None
    | Some s => exists w, sockets st !! k = Some (withWritten s w) /\
                  Forall (fun x => exists text, x = SackText text) w
    end).
  { destruct (sockets st !! k) as [s|] eqn:E; [|reflexivity].
    exists []. rewrite withWritten_nil. split; [reflexivity|constructor]. }
  unfold handleClientData.
  destruct (clients st !! clientId); [|exact Hrefl].
  destruct (negb _); [exact Hrefl|]. clear Hrefl.
  generalize (extractMessages (trim (toStringAscii data))). intros msgs.
  revert st. induction msgs as [|m msgs IH]; intros st.
  - simpl. destruct (sockets st !! k) as [s|] eqn:E; [|reflexivity].
    exists []. rewrite withWritten_nil. split; [reflexivity|constructor].
  - simpl. specialize (IH (processMessage config now clientId m st)).
    pose proof (processMessage_appends now clientId m st k) as H1.
    destruct (sockets st !! k) as [s|].
    + destruct H1 as (w1 & E1 & F1). rewrite E1 in IH.
      destruct IH as (w2 & E2 & F2).
      exists (w1 ++ w2). rewrite <- withWritten_app.
      split; [exact E2|]. apply Forall_app. split; assumption.
    + rewrite H1 in IH. exact IH.
Qed.

(** Processing a read never opens, ends or destroys a socket and never
    touches its listeners: each socket is as it was, with zero or more
    acknowledgment texts appended to what was written to it. *)
Theorem read_only_appends_acks now clientId data st k :
  match sockets st !! k with
  | None => sockets (handleClientData config now clientId data st) !! k = None
  | Some s =>
      exists w,
        sockets (handleClientData config now clientId data st) !! k
        = Some (withWritten s w) /\
        Forall (fun x => exists text, x = SackText text) w
  end.
Proof. exact (handleClientData_appends now clientId data st k). Qed.

Lemma processMessages_sockets_ne now clientId msgs st c k :
  clients st !! clientId = Some c -> k <> Client.socket c ->
  sockets (processMessages config now clientId msgs st) !! k
  = sockets st !! k.
Proof.
  revert st c. induction msgs as [|m msgs IH]; intros st c Hc Hk;
    [reflexivity|].
  simpl.
  destruct (processMessage_cases now clientId m st)
    as [[Hn _] | [(c0 & Hc0 & Hs & [Hcl Hso]) | (c0 & f & Hc0 & Hs & Hf)]].
  - congruence.
  - rewrite (IH _ c); [rewrite Hso; reflexivity|rewrite Hcl; exact Hc|exact Hk].
  - assert (c0 = c) by congruence. subst c0.
    rewrite (IH _ (clientAfter now c f)).
    + rewrite (processMessage_sockets _ _ _ _ _ _ Hc Hf).
      destruct (sockets st !! Client.socket c) as [s|]; [|reflexivity].
      destruct (enableSack config && ackRequired f && writable s);
        [|reflexivity].
      apply lookup_insert_ne. congruence.
    + rewrite (processMessage_clients _ _ _ _ _ _ _ Hc Hs Hf).
      apply lookup_insert_eq.
    + exact Hk.
Qed.

Lemma handleClientData_sockets_ne now clientId data st c k :
  clients st !! clientId = Some c -> k <> Client.socket c ->
  sockets (handleClientData config now clientId data st) !! k
  = sockets st !! k.
Proof.
  intros Hc Hk. unfold handleClientData. rewrite Hc.
  destruct (negb _); [reflexivity|].
  eapply processMessages_sockets_ne; eauto.
Qed.

End ProcessingMore.

Lemma messageCount_counts_decoded_witness :
  exists c',
    clients
      (handleClientData sampleConfig 3 sampleClientId
         (heartbeat29 ++ js "+XYZ:junk$" ++ heartbeat29) sampleState)
      !! sampleClientId = Some c' /\
    Client.messageCount c' = 2.
Proof.
  destruct (messageCount_counts_decoded sampleConfig 3 sampleClientId
              (heartbeat29 ++ js "+XYZ:junk$" ++ heartbeat29) sampleState
              (Client.mk 1 None None 0 0 0 true))
    as (c' & H1 & H2 & _).
  - vm_compute. reflexivity.
  - exists c'. split; [exact H1|]. rewrite H2. vm_compute. reflexivity.
Defined.

Lemma ack_written_when_due_witness :
  sockets
    (processMessage sampleConfig 3 sampleClientId heartbeat29 sampleState)
  = <[1 := mkSocket sampleClientId [] false true false
                    [SackText (js "+SACK:GTHBD,80200A,0029$")]]>
      (sockets sampleState).
Proof.
  rewrite (ack_written_when_due sampleConfig 3 sampleClientId heartbeat29
             sampleState (Client.mk 1 None None 0 0 0 true)
             (mkBaseMessage ACK (js "GTHBD") (js "80200A0303")
                (js "865585040014007") (js "GL33CG") (js "20190517022529")
                (js "0029") heartbeat29)
             (mkSocket sampleClientId [] false true false []));
    vm_compute; reflexivity.
Defined.

Lemma nothing_written_when_sack_disabled_witness :
  sockets
    (handleClientData (mkServerConfig false 1000) 3 sampleClientId
       (heartbeat29 ++ heartbeat29) sampleState)
  = sockets sampleState.
Proof.
  apply (nothing_written_when_sack_disabled (mkServerConfig false 1000)).
  reflexivity.
Defined.

(** ** Connections and their events *)

Section Connections.

Variable config : ServerConfig.

Implicit Types (st : Server) (clientId remote peer : jsstring) (now : Z)
  (sock : nat).

Lemma emit_unfold now sock ev data st s :
  sockets st !! sock = Some s ->
  emit config now sock ev data st =
  foldl (fun st l => runHandler config now sock data (handler l) st)
    (updSocket sock (fun s =>
       mkSocket (remote s)
         (filter (fun l : Listener => ~ (event l = ev /\ once l = true))
            (listeners s))
         (isHttpConnection s) (writable s) (destroyed s) (written s)) st)
    (filter (fun l : Listener => event l = ev) (listeners s)).
Proof. intros H. unfold emit. rewrite H. reflexivity. Qed.

(** Below capacity the connection is accepted: the registry and the log
    are unchanged and the socket waits for its first read. *)
Lemma step_connection_accepted now sock remote st :
  (Z.of_nat (size (clients st)) < maxConnections config)%Z ->
  step config now (Connection sock remote) st =
  {| clients := clients st;
     sockets := <[sock := acceptedSocket remote]> (sockets st);
     log := log st |}.
Proof.
  intros H. unfold step, handleConnection. cbn [sockets clients].
  rewrite lookup_insert_eq. unfold newSocket. cbv beta iota.
  apply Z.leb_gt in H. rewrite H.
  unfold addListener, updSocket. cbn [clients sockets log]. f_equal.
  rewrite !alter_insert_eq. reflexivity.
Qed.

Lemma emit_first_read now sock remote data st :
  sockets st !! sock = Some (acceptedSocket remote) ->
  isHttpHealthCheck (toStringAscii data) = false ->
  emit config now sock EvData data st =
  handleClientData config now remote data
    {| clients :=
         <[remote := Client.mk sock None None now now 0 true]> (clients st);
       sockets := <[sock := establishedSocket remote []]> (sockets st);
       log := log st ++ [LogConnection remote] |}.
Proof.
  intros Hs Hh. rewrite (emit_unfold _ _ _ _ _ _ Hs).
  change (filter (fun l : Listener => event l = EvData)
            (listeners (acceptedSocket remote)))
    with [mkListener EvData true InitialDataHandler].
  cbn [foldl handler]. unfold runHandler.
  cbn [updSocket sockets]. rewrite lookup_alter_eq, Hs.
  unfold acceptedSocket. simpl fmap. cbv beta iota.
  unfold initialDataHandler. rewrite Hh. f_equal.
  unfold setupTcpClient, removeListener, addListener, setClient, addLog,
    updSocket. cbn [clients sockets log]. f_equal.
  apply map_eq. intros k. destruct (decide (k = sock)) as [->|Hk].
  - rewrite !lookup_alter_eq, Hs, lookup_insert_eq. reflexivity.
  - rewrite !lookup_alter_ne, lookup_insert_ne by congruence. reflexivity.
Qed.

(** A connection accepted below capacity whose first read is not an HTTP
    request: a session is opened under the peer's identifier, with counter
    0 and no device identifier, and that same read is then processed as
    any later read is.  The session exists afterwards, bound to the
    socket, and the socket carries the listeners of a session: the first
    read is classified once. *)
Theorem first_read_opens_session t1 t2 sock remote data st :
  (Z.of_nat (size (clients st)) < maxConnections config)%Z ->
  isHttpHealthCheck (toStringAscii data) = false ->
  let final :=
    run config [(t1, Connection sock remote);
                (t2, SocketEmit sock EvData data)] st in
  final = handleClientData config t2 remote data (sessionOpened t2 sock remote st) /\
  (exists c,
     clients final !! remote = Some c /\
     Client.socket c = sock /\ Client.connected c = t2 /\
     Client.messageCount c =
       if isMessageComplete (trim (toStringAscii data))
       then countDecoded (extractMessages (trim (toStringAscii data)))
       else 0) /\
  (exists w, sockets final !! sock = Some (establishedSocket remote w)).
Proof.
  intros Hcap Hh final.
  assert (E : final =
    handleClientData config t2 remote data (sessionOpened t2 sock remote st)).
  { unfold final, run. cbn [foldl fst snd].
    rewrite (step_connection_accepted _ _ _ _ Hcap). cbn [step].
    rewrite (emit_first_read _ _ remote) by
      (try exact Hh; cbn [sockets]; apply lookup_insert_eq).
    unfold sessionOpened. cbn [clients sockets log].
    rewrite insert_insert_eq. reflexivity. }
  split; [exact E|]. rewrite E. split.
  - destruct (processMessages_messageCount config t2 remote
                (extractMessages (trim (toStringAscii data)))
                (sessionOpened t2 sock remote st)
                (Client.mk sock None None t2 t2 0 true))
      as (c' & H1 & H2 & H3 & H4 & _).
    { apply lookup_insert_eq. }
    unfold handleClientData.
    assert (Hl : clients (sessionOpened t2 sock remote st) !! remote
                 = Some (Client.mk sock None None t2 t2 0 true))
      by apply lookup_insert_eq.
    rewrite Hl.
    destruct (isMessageComplete (trim (toStringAscii data))); simpl negb;
      cbv iota.
    + exists c'. auto.
    + eexists. split; [exact Hl|]. auto.
  - pose proof (handleClientData_appends config t2 remote data
                  (sessionOpened t2 sock remote st) sock) as H.
    assert (Hl : sockets (sessionOpened t2 sock remote st) !! sock
                 = Some (establishedSocket remote []))
      by apply lookup_insert_eq.
    rewrite Hl in H. destruct H as (w & H & _).
    exists w. rewrite H. reflexivity.
Qed.

Lemma getStats_bound st : (getStats st).2 <= (getStats st).1.
Proof.
  unfold getStats. simpl. rewrite <- length_map_to_list.
  apply length_filter.
Qed.

Lemma emit_health_check now sock remote data st :
  sockets st !! sock = Some (acceptedSocket remote) ->
  isHttpHealthCheck (toStringAscii data) = true ->
  emit config now sock EvData data st =
  {| clients := clients st;
     sockets :=
       <[sock := healthSocket remote connectionListeners
                   [HttpHealth (getStats st).1 (getStats st).2]]> (sockets st);
     log := log st |}.
Proof.
  intros Hs Hh. rewrite (emit_unfold _ _ _ _ _ _ Hs).
  change (filter (fun l : Listener => event l = EvData)
            (listeners (acceptedSocket remote)))
    with [mkListener EvData true InitialDataHandler].
  cbn [foldl handler]. unfold runHandler.
  cbn [updSocket sockets]. rewrite lookup_alter_eq, Hs.
  unfold acceptedSocket. simpl fmap. cbv beta iota.
  unfold initialDataHandler. rewrite Hh.
  unfold socketEnd, socketWrite, setHttpConnection, updSocket, getStats.
  cbn [clients sockets log]. f_equal.
  apply map_eq. intros k. destruct (decide (k = sock)) as [->|Hk].
  - rewrite !lookup_alter_eq, Hs, lookup_insert_eq. reflexivity.
  - rewrite !lookup_alter_ne, lookup_insert_ne by congruence. reflexivity.
Qed.

Lemma runHandler_answered now sock remote w data l st :
  answered sock remote w st -> l ∈ connectionListeners ->
  runHandler config now sock data (handler l) st = st.
Proof.
  intros (ls & Hs & _) Hl. unfold runHandler. rewrite Hs.
  unfold connectionListeners in Hl.
  repeat (apply elem_of_cons in Hl as [->|Hl]; [reflexivity|]).
  apply elem_of_nil in Hl. destruct Hl.
Qed.

Lemma emit_answered now sock remote w ev data st :
  answered sock remote w st ->
  clients (emit config now sock ev data st) = clients st /\
  log (emit config now sock ev data st) = log st /\
  answered sock remote w (emit config now sock ev data st).
Proof.
  intros (ls & Hs & Hsub). rewrite (emit_unfold _ _ _ _ _ _ Hs).
  set (st1 := updSocket sock _ st).
  assert (H1 : answered sock remote w st1).
  { exists (filter (fun l : Listener => ~ (event l = ev /\ once l = true)) ls).
    split.
    - unfold st1. cbn [updSocket sockets]. rewrite lookup_alter_eq, Hs.
      reflexivity.
    - intros x Hx. apply list_elem_of_filter in Hx as [_ Hx]. apply Hsub, Hx. }
  assert (Hcalled : Forall (fun l => l ∈ connectionListeners)
            (filter (fun l : Listener => event l = ev)
               (listeners (healthSocket remote ls w)))).
  { apply Forall_forall. intros x Hx.
    apply list_elem_of_filter in Hx as [_ Hx]. apply Hsub, Hx. }
  assert (E : foldl
            (fun st l => runHandler config now sock data (handler l) st) st1
            (filter (fun l : Listener => event l = ev)
               (listeners (healthSocket remote ls w))) = st1).
  { induction Hcalled as [|l called Hl _ IH]; [reflexivity|].
    simpl. rewrite (runHandler_answered _ _ _ _ _ _ _ H1 Hl). exact IH. }
  rewrite E. repeat split; [exact H1].
Qed.

(** A first read that looks like an HTTP request is answered and nothing
    else: no session is opened, the one response carries the number of
    sessions and of identified sessions (at most as many), and the socket
    is ended.  From then on no event on that socket changes the registry
    or the log, and nothing more is written to it. *)
Theorem health_check_answered t1 t2 sock remote data st :
  (Z.of_nat (size (clients st)) < maxConnections config)%Z ->
  isHttpHealthCheck (toStringAscii data) = true ->
  let response := HttpHealth (getStats st).1 (getStats st).2 in
  let st' :=
    run config [(t1, Connection sock remote);
                (t2, SocketEmit sock EvData data)] st in
  st' = {| clients := clients st;
           sockets :=
             <[sock := healthSocket remote connectionListeners [response]]>
               (sockets st);
           log := log st |} /\
  (getStats st).1 = size (clients st) /\
  (getStats st).2 <= (getStats st).1 /\
  forall events : list (Z * (SocketEvent * list ascii)),
    let final :=
      foldl (fun st e => emit config e.1 sock e.2.1 e.2.2 st) st' events in
    clients final = clients st /\
    log final = log st /\
    exists ls, sockets final !! sock = Some (healthSocket remote ls [response]).
Proof.
  intros Hcap Hh response st'.
  assert (E : st' =
    {| clients := clients st;
       sockets :=
         <[sock := healthSocket remote connectionListeners [response]]>
           (sockets st);
       log := log st |}).
  { unfold st', run. cbn [foldl fst snd].
    rewrite (step_connection_accepted _ _ _ _ Hcap). cbn [step].
    rewrite (emit_health_check _ _ remote) by
      (try exact Hh; cbn [sockets]; apply lookup_insert_eq).
    cbn [clients sockets log]. rewrite insert_insert_eq. reflexivity. }
  split; [exact E|]. split; [reflexivity|]. split; [apply getStats_bound|].
  intros events final.
  assert (H0 : answered sock remote [response] st').
  { rewrite E. exists connectionListeners. split.
    - cbn [sockets]. apply lookup_insert_eq.
    - intros x Hx. exact Hx. }
  assert (Hc0 : clients st' = clients st) by (rewrite E; reflexivity).
  assert (Hl0 : log st' = log st) by (rewrite E; reflexivity).
  unfold final. clear final E. revert H0 Hc0 Hl0. generalize st'.
  induction events as [|e events IH]; intros s0 H0 Hc0 Hl0.
  - simpl. destruct H0 as (ls & Hs & _). eauto.
  - simpl.
    destruct (emit_answered e.1 sock remote [response] e.2.1 e.2.2 s0 H0)
      as (H1 & H2 & H3).
    apply IH; [exact H3|congruence|congruence].
Qed.

Lemma updSocket_id sock f st s :
  sockets st !! sock = Some s -> f s = s -> updSocket sock f st = st.
Proof.
  intros Hs Hf. destruct st as [cs ss lg]. unfold updSocket. simpl in *.
  f_equal. apply alter_id. intros x Hx. congruence.
Qed.

Lemma delete_twice (clientId : jsstring) (m : gmap jsstring ConnectedClient) :
  delete clientId (delete clientId m) = delete clientId m.
Proof. apply delete_id, lookup_delete_eq. Qed.

(** Once a session is removed, a second removal, a read and an
    acknowledgment for its identifier all leave the state as it is. *)
Theorem after_disconnect_inert now clientId data text st :
  let st' := handleClientDisconnect clientId st in
  clients st' !! clientId = None /\
  handleClientDisconnect clientId st' = st' /\
  handleClientData config now clientId data st' = st' /\
  sendAckMessage clientId text st' = st' /\
  (forall id', id' <> clientId -> clients st' !! id' = clients st !! id').
Proof.
  intros st'.
  assert (Hnone : clients st' !! clientId = None).
  { unfold st', handleClientDisconnect, deleteClient. cbn [clients].
    apply lookup_delete_eq. }
  split; [exact Hnone|]. split; [|split; [|split]].
  - unfold handleClientDisconnect at 1. rewrite Hnone.
    destruct st' as [cs ss lg] eqn:E. unfold deleteClient. simpl in *.
    f_equal. apply delete_id, Hnone.
  - unfold handleClientData. rewrite Hnone. reflexivity.
  - unfold sendAckMessage. rewrite Hnone. reflexivity.
  - intros id' Hne. unfold st', handleClientDisconnect, deleteClient.
    cbn [clients]. rewrite lookup_delete_ne by congruence.
    destruct (clients st !! clientId); reflexivity.
Qed.



Lemma emit_established now sock peer w ev data st :
  sockets st !! sock = Some (establishedSocket peer w) ->
  ev = EvClose \/ ev = EvError ->
  emit config now sock ev data st =
  foldl (fun st l => runHandler config now sock data (handler l) st) st
    (filter (fun l : Listener => event l = ev)
       (listeners (establishedSocket peer w))).
Proof.
  intros Hs Hev. rewrite (emit_unfold _ _ _ _ _ _ Hs).
  rewrite (updSocket_id _ _ _ _ Hs); [reflexivity|].
  destruct Hev as [-> | ->]; reflexivity.
Qed.

Lemma runHandler_established now sock peer w data h st :
  sockets st !! sock = Some (establishedSocket peer w) ->
  runHandler config now sock data h st =
  match h with
  | InitialDataHandler => initialDataHandler config now sock peer data st
  | IdentifyTimeout =>
      if negb (bool_decide (is_Some (clients st !! peer)))
      then socketDestroy sock st else st
  | ConnectionError => handleClientError peer st
  | ConnectionClose =>
      if bool_decide (is_Some (clients st !! peer))
      then handleClientDisconnect peer st else st
  | ClientData => handleClientData config now peer data st
  | ClientClose => handleClientDisconnect peer st
  | ClientError => handleClientError peer st
  | ClientTimeout =>
      socketDestroy sock (addLog (LogConnectionTimeout peer) st)
  end.
Proof. intros Hs. unfold runHandler. rewrite Hs. destruct h; reflexivity. Qed.



(** The error event of a session's socket removes the session; each of
    the two registered error listeners logs the error. *)
Theorem error_removes_session now sock peer w data st :
  sockets st !! sock = Some (establishedSocket peer w) ->
  emit config now sock EvError data st =
  {| clients := delete peer (clients st);
     sockets := sockets st;
     log := log st ++ [LogClientError peer; LogClientError peer] |}.
Proof.
  intros Hs. rewrite (emit_established _ _ _ _ _ _ _ Hs) by auto.
  change (filter (fun l : Listener => event l = EvError)
            (listeners (establishedSocket peer w)))
    with [mkListener EvError false ConnectionError;
          mkListener EvError false ClientError].
  cbn [foldl handler].
  rewrite (runHandler_established _ _ _ _ _ ConnectionError _ Hs).
  rewrite (runHandler_established _ _ peer w) by exact Hs.
  unfold handleClientError, deleteClient, addLog. cbn [clients sockets log].
  rewrite delete_twice, <- app_assoc. reflexivity.
Qed.

(** The idle timeout of a session's socket destroys the socket (it is no
    longer writable) and logs the timeout once; it does not remove the
    session, which stays registered until the socket's close or error
    event. *)
Theorem idle_timeout_destroys_socket now sock peer w data st :
  sockets st !! sock = Some (establishedSocket peer w) ->
  emit config now sock EvTimeout data st =
  {| clients := clients st;
     sockets :=
       <[sock :=
           mkSocket peer
             [mkListener EvError false ConnectionError;
              mkListener EvClose false ConnectionClose;
              mkListener EvData false ClientData;
              mkListener EvClose false ClientClose;
              mkListener EvError false ClientError]
             false false true w]> (sockets st);
     log := log st ++ [LogConnectionTimeout peer] |}.
Proof.
  intros Hs. rewrite (emit_unfold _ _ _ _ _ _ Hs).
  change (filter (fun l : Listener => event l = EvTimeout)
            (listeners (establishedSocket peer w)))
    with [mkListener EvTimeout true IdentifyTimeout;
          mkListener EvTimeout true ClientTimeout].
  cbn [foldl handler]. unfold runHandler.
  cbn [updSocket sockets clients]. rewrite lookup_alter_eq, Hs.
  simpl fmap. cbn [remote isHttpConnection establishedSocket negb andb].
  destruct (bool_decide (is_Some (clients st !! peer))); simpl negb;
    cbv iota; unfold socketDestroy, addLog, updSocket;
    cbn [sockets clients log];
    rewrite ?lookup_alter_eq, Hs; simpl fmap; cbv beta iota;
    (f_equal; apply map_eq; intros k;
     destruct (decide (k = sock)) as [->|Hk];
     [rewrite !lookup_alter_eq, Hs, lookup_insert_eq; reflexivity
     |rewrite !lookup_alter_ne, lookup_insert_ne by congruence; reflexivity]).
Qed.

(** The timeout of an accepted connection that has sent nothing destroys
    its socket when no session is registered under its identifier; no
    session is opened and nothing is logged or written. *)
Theorem silent_connection_timeout now sock peer data st :
  sockets st !! sock = Some (acceptedSocket peer) ->
  clients st !! peer = None ->
  emit config now sock EvTimeout data st =
  {| clients := clients st;
     sockets :=
       <[sock :=
           mkSocket peer
             [mkListener EvData true InitialDataHandler;
              mkListener EvError false ConnectionError;
              mkListener EvClose false ConnectionClose]
             false false true []]> (sockets st);
     log := log st |}.
Proof.
  intros Hs Hc. rewrite (emit_unfold _ _ _ _ _ _ Hs).
  change (filter (fun l : Listener => event l = EvTimeout)
            (listeners (acceptedSocket peer)))
    with [mkListener EvTimeout true IdentifyTimeout].
  cbn [foldl handler]. unfold runHandler.
  cbn [updSocket sockets clients]. rewrite lookup_alter_eq, Hs.
  simpl fmap. cbn [remote isHttpConnection acceptedSocket negb andb].
  rewrite bool_decide_eq_false_2 by (rewrite Hc; intros [x Hx]; discriminate).
  simpl negb. cbv iota. unfold socketDestroy, updSocket.
  cbn [sockets clients log]. f_equal. apply map_eq. intros k.
  destruct (decide (k = sock)) as [->|Hk].
  - rewrite !lookup_alter_eq, Hs, lookup_insert_eq. reflexivity.
  - rewrite !lookup_alter_ne, lookup_insert_ne by congruence. reflexivity.
Qed.

(** The capacity is checked when a connection arrives and the session is
    registered at its first read: two connections accepted while there is
    room for one both open a session, so the registry can end up holding
    more sessions than [maxConnections]. *)
Theorem registry_can_exceed_capacity t1 t2 t3 t4 sock1 sock2 peer1 peer2
  data1 data2 st :
  sock1 <> sock2 -> peer1 <> peer2 ->
  clients st !! peer1 = None -> clients st !! peer2 = None ->
  (Z.of_nat (size (clients st)) < maxConnections config)%Z ->
  isHttpHealthCheck (toStringAscii data1) = false ->
  isHttpHealthCheck (toStringAscii data2) = false ->
  let final :=
    run config [(t1, Connection sock1 peer1); (t2, Connection sock2 peer2);
                (t3, SocketEmit sock1 EvData data1);
                (t4, SocketEmit sock2 EvData data2)] st in
  size (clients final) = size (clients st) + 2 /\
  is_Some (clients final !! peer1) /\ is_Some (clients final !! peer2) /\
  ((Z.of_nat (size (clients st)) = maxConnections config - 1)%Z ->
   (maxConnections config < Z.of_nat (size (clients final)))%Z).
Proof.
  intros Hsock Hpeer Hn1 Hn2 Hcap Hh1 Hh2 final.
  unfold final, run. cbn [foldl fst snd].
  rewrite (step_connection_accepted _ _ _ _ Hcap).
  rewrite step_connection_accepted by exact Hcap.
  cbn [clients sockets log step].
  rewrite (emit_first_read t3 sock1 peer1 data1) by
    (try exact Hh1; cbn [sockets];
     rewrite lookup_insert_ne by congruence; apply lookup_insert_eq).
  cbn [clients sockets log].
  set (stA := {| clients := <[peer1 := _]> (clients st); sockets := _;
                 log := _ |}).
  set (stA' := handleClientData config t3 peer1 data1 stA).
  assert (HcA : clients stA !! peer1
                = Some (Client.mk sock1 None None t3 t3 0 true))
    by apply lookup_insert_eq.
  destruct (handleClientData_sessions config t3 peer1 data1 stA)
    as [HdomA HneA]. fold stA' in HdomA, HneA.
  assert (HsA : sockets stA' !! sock2 = Some (acceptedSocket peer2)).
  { unfold stA'.
    rewrite (handleClientData_sockets_ne config _ _ _ _ _ sock2 HcA)
      by (simpl; congruence).
    unfold stA. cbn [sockets].
    rewrite lookup_insert_ne by congruence. apply lookup_insert_eq. }
  rewrite (emit_first_read _ _ peer2 data2 stA' HsA Hh2).
  set (stB := {| clients := <[peer2 := _]> (clients stA'); sockets := _;
                 log := _ |}).
  destruct (handleClientData_sessions config t4 peer2 data2 stB)
    as [HdomB HneB].
  assert (Hn2A : clients stA' !! peer2 = None).
  { rewrite HneA by congruence. unfold stA. cbn [clients].
    rewrite lookup_insert_ne by congruence. exact Hn2. }
  assert (Hsize : size (clients (handleClientData config t4 peer2 data2 stB))
                  = size (clients st) + 2).
  { rewrite <- size_dom, HdomB, size_dom. unfold stB. cbn [clients].
    rewrite map_size_insert_None by exact Hn2A.
    rewrite <- size_dom, HdomA, size_dom. unfold stA. cbn [clients].
    rewrite map_size_insert_None by exact Hn1. lia. }
  split; [exact Hsize|]. split; [|split].
  - rewrite HneB by congruence. unfold stB. cbn [clients].
    rewrite lookup_insert_ne by congruence.
    apply elem_of_dom. rewrite HdomA. apply elem_of_dom. rewrite HcA. eauto.
  - apply elem_of_dom. rewrite HdomB. apply elem_of_dom.
    unfold stB. cbn [clients]. rewrite lookup_insert_eq. eauto.
  - intros Hfull. rewrite Hsize. lia.
Qed.

End Connections.

(** ** Shutdown *)

Section Shutdown.

Implicit Types (st : Server) (l : list (jsstring * ConnectedClient)).

Lemma destroy_all_sockets l st k :
  sockets
    (foldr (fun (kc : jsstring * ConnectedClient) st =>
              socketDestroy (Client.socket kc.2) st) st l) !! k
  = if bool_decide (k ∈ map (fun kc => Client.socket kc.2) l)
    then destroyedSocket <$> sockets st !! k
    else sockets st !! k.
Proof.
  induction l as [|[id c] l IH]; [reflexivity|].
  cbn [foldr map snd]. unfold socketDestroy at 1, updSocket.
  cbn [sockets].
  destruct (decide (k = Client.socket c)) as [->|Hk].
  - rewrite lookup_alter_eq, IH.
    rewrite (bool_decide_eq_true_2 (_ ∈ _ :: _)) by apply list_elem_of_here.
    destruct (bool_decide _); destruct (sockets st !! Client.socket c);
      reflexivity.
  - rewrite lookup_alter_ne by congruence. rewrite IH.
    destruct (bool_decide (k ∈ map (fun kc => Client.socket kc.2) l)) eqn:E.
    + apply bool_decide_eq_true in E.
      rewrite bool_decide_eq_true_2; [reflexivity|].
      apply elem_of_cons. right. exact E.
    + apply bool_decide_eq_false in E.
      rewrite bool_decide_eq_false_2; [reflexivity|].
      intros H. apply elem_of_cons in H as [H|H]; [congruence|auto].
Qed.

Lemma clients_destroy_all l st :
  clients
    (foldr (fun (kc : jsstring * ConnectedClient) st =>
              socketDestroy (Client.socket kc.2) st) st l) = clients st /\
  log
    (foldr (fun (kc : jsstring * ConnectedClient) st =>
              socketDestroy (Client.socket kc.2) st) st l) = log st.
Proof. induction l as [|kc l IH]; [split; reflexivity|exact IH]. Qed.

(** [stop] empties the registry and destroys the socket of every session
    it held: such a socket is no longer writable, and keeps what was
    written to it; a socket no session is bound to is left as it is. *)
Theorem stop_destroys_session_sockets st :
  clients (stop st) = ∅ /\
  (forall id c s,
     clients st !! id = Some c ->
     sockets st !! Client.socket c = Some s ->
     sockets (stop st) !! Client.socket c = Some (destroyedSocket s)) /\
  (forall k,
     (forall id c, clients st !! id = Some c -> Client.socket c <> k) ->
     sockets (stop st) !! k = sockets st !! k).
Proof.
  split; [reflexivity|]. unfold stop. cbn [sockets]. split.
  - intros id c s Hc Hs. rewrite destroy_all_sockets, Hs.
    rewrite bool_decide_eq_true_2; [reflexivity|].
    apply list_elem_of_fmap. exists (id, c). split; [reflexivity|].
    apply elem_of_map_to_list. exact Hc.
  - intros k Hk. rewrite destroy_all_sockets.
    rewrite bool_decide_eq_false_2; [reflexivity|].
    intros H. apply list_elem_of_fmap in H as ([id c] & -> & H).
    apply elem_of_map_to_list in H. eapply Hk; eauto.
Qed.

End Shutdown.

(** ** An invariant of the registry *)

Section RegistryInvariant.

Variable config : ServerConfig.

Implicit Types (st : Server) (clientId msg : jsstring) (now : Z).

Lemma identityWf_clientAfter now c f :
  identityWf c -> identityWf (clientAfter now c f).
Proof.
  intros H. unfold clientAfter, identityWf. cbn [Client.imei Client.deviceName].
  destruct (truthy (Some (uniqueId f)) && negb (truthy (Client.imei c))) eqn:E;
    [|exact H].
  right. exists (uniqueId f), (deviceName f).
  apply andb_true_iff in E as [E _].
  repeat split. destruct (uniqueId f); [discriminate|discriminate].
Qed.

Lemma sessionsWf_same st st' :
  clients st' = clients st -> sessionsWf st -> sessionsWf st'.
Proof. intros E H id c. rewrite E. apply H. Qed.

Lemma sessionsWf_delete clientId st :
  sessionsWf st -> sessionsWf (deleteClient clientId st).
Proof.
  intros H id c. cbn [deleteClient clients]. rewrite lookup_delete_Some.
  intros [_ Hc]. eapply H, Hc.
Qed.

Lemma sessionsWf_processMessage now clientId msg st :
  sessionsWf st -> sessionsWf (processMessage config now clientId msg st).
Proof.
  intros H.
  destruct (processMessage_cases config now clientId msg st)
    as [[_ ->] | [(c & _ & _ & [E _]) | (c & f & Hc & Hs & Hf)]].
  - exact H.
  - eapply sessionsWf_same; eauto.
  - intros id c'. rewrite (processMessage_clients _ _ _ _ _ _ _ Hc Hs Hf).
    rewrite lookup_insert_Some. intros [(_ & <-) | (_ & Hc')].
    + apply identityWf_clientAfter. eapply H, Hc.
    + eapply H, Hc'.
Qed.

Lemma sessionsWf_handleClientData now clientId data st :
  sessionsWf st -> sessionsWf (handleClientData config now clientId data st).
Proof.
  intros H. unfold handleClientData.
  destruct (clients st !! clientId); [|exact H].
  destruct (negb _); [exact H|].
  generalize (extractMessages (trim (toStringAscii data))). intros msgs.
  revert st H. induction msgs as [|m msgs IH]; intros st H; [exact H|].
  simpl. apply IH, sessionsWf_processMessage, H.
Qed.

Lemma sessionsWf_handleClientDisconnect clientId st :
  sessionsWf st -> sessionsWf (handleClientDisconnect clientId st).
Proof.
  intros H. unfold handleClientDisconnect. apply sessionsWf_delete.
  destruct (clients st !! clientId); exact H.
Qed.

Lemma sessionsWf_handleClientError clientId st :
  sessionsWf st -> sessionsWf (handleClientError clientId st).
Proof. intros H. apply sessionsWf_delete. exact H. Qed.

Lemma sessionsWf_initialDataHandler now sock clientId data st :
  sessionsWf st ->
  sessionsWf (initialDataHandler config now sock clientId data st).
Proof.
  intros H. unfold initialDataHandler.
  destruct (isHttpHealthCheck _); [exact H|].
  apply sessionsWf_handleClientData.
  intros id c. unfold setupTcpClient, removeListener, addListener, setClient,
    addLog, updSocket. cbn [clients].
  rewrite lookup_insert_Some. intros [(_ & <-) | (_ & Hc)].
  - left. split; reflexivity.
  - eapply H, Hc.
Qed.

Lemma sessionsWf_runHandler now sock data h st :
  sessionsWf st -> sessionsWf (runHandler config now sock data h st).
Proof.
  intros H. unfold runHandler.
  destruct (sockets st !! sock) as [s|]; [|exact H].
  destruct h;
    repeat match goal with
           | |- sessionsWf (if ?b then _ else _) => destruct b
           end;
    first [ exact H
          | apply sessionsWf_initialDataHandler; exact H
          | apply sessionsWf_handleClientError; exact H
          | apply sessionsWf_handleClientDisconnect; exact H
          | apply sessionsWf_handleClientData; exact H ].
Qed.

Lemma sessionsWf_emit now sock ev data st :
  sessionsWf st -> sessionsWf (emit config now sock ev data st).
Proof.
  intros H. unfold emit.
  destruct (sockets st !! sock) as [s|]; [|exact H].
  generalize (filter (fun l : Listener => event l = ev) (listeners s)).
  intros called.
  match goal with |- sessionsWf (foldl _ ?st0 _) =>
    assert (H0 : sessionsWf st0) by exact H; revert H0; generalize st0
  end.
  induction called as [|l called IH]; intros st1 H1; [exact H1|].
  simpl. apply IH, sessionsWf_runHandler, H1.
Qed.

Lemma sessionsWf_step now e st :
  sessionsWf st -> sessionsWf (step config now e st).
Proof.
  intros H. destruct e as [sock peer|sock ev data]; simpl.
  - unfold handleConnection. cbn [sockets clients].
    rewrite lookup_insert_eq. destruct (_ <=? _)%Z; exact H.
  - apply sessionsWf_emit, H.
Qed.

(** Whatever events arrive, every session of the registry is either not
    identified, with neither device identifier nor device name, or
    identified by a non-empty identifier and carrying a name: the two are
    set together and an empty identifier is never stored. *)
Theorem sessions_identity_invariant trace st :
  sessionsWf st -> sessionsWf (run config trace st).
Proof.
  revert st. induction trace as [|[t e] trace IH]; intros st H; [exact H|].
  simpl. apply IH, sessionsWf_step, H.
Qed.

End RegistryInvariant.

Lemma sessions_identity_invariant_witness :
  exists c,
    clients
      (run sampleConfig
         [(9%Z, Connection 2 (js "10.0.0.8:40000"));
          (10%Z, SocketEmit 2 EvData heartbeat29)]
         sampleState) !! js "10.0.0.8:40000" = Some c /\
    identityWf c.
Proof.
  assert (H : sessionsWf sampleState).
  { intros id c. unfold sampleState. cbn [clients].
    rewrite lookup_singleton_Some. intros [_ <-]. left. split; reflexivity. }
  pose proof (sessions_identity_invariant sampleConfig
    [(9%Z, Connection 2 (js "10.0.0.8:40000"));
     (10%Z, SocketEmit 2 EvData heartbeat29)] sampleState H) as Hrun.
  eexists. split; [vm_compute; reflexivity|].
  apply (Hrun (js "10.0.0.8:40000")). vm_compute. reflexivity.
Defined.

(** *** Sample runs of the connection events *)

Lemma first_read_opens_session_witness :
  exists c,
    clients
      (run sampleConfig
         [(9%Z, Connection 2 (js "10.0.0.8:40000"));
          (10%Z, SocketEmit 2 EvData heartbeat29)]
         sampleState) !! js "10.0.0.8:40000" = Some c /\
    Client.socket c = 2 /\ Client.connected c = 10%Z /\
    Client.messageCount c = 1.
Proof.
  destruct (first_read_opens_session sampleConfig 9 10 2
              (js "10.0.0.8:40000") heartbeat29 sampleState)
    as (_ & (c & H1 & H2 & H3 & H4) & _).
  - vm_compute. reflexivity.
  - vm_compute. reflexivity.
  - exists c. split; [exact H1|]. split; [exact H2|]. split; [exact H3|].
    rewrite H4. vm_compute. reflexivity.
Defined.

Lemma health_check_answered_witness :
  run sampleConfig
    [(9%Z, Connection 2 (js "10.0.0.8:40000"));
     (10%Z, SocketEmit 2 EvData (js "GET / HTTP/1.1"))]
    sampleState
  = {| clients := clients sampleState;
       sockets :=
         <[2 := healthSocket (js "10.0.0.8:40000") connectionListeners
                  [HttpHealth (getStats sampleState).1
                     (getStats sampleState).2]]> (sockets sampleState);
       log := log sampleState |}.
Proof.
  apply (health_check_answered sampleConfig 9 10 2 (js "10.0.0.8:40000")
           (js "GET / HTTP/1.1") sampleState).
  - vm_compute. reflexivity.
  - vm_compute. reflexivity.
Defined.


Lemma error_removes_session_witness :
  emit sampleConfig 20 1 EvError [] establishedState
  = {| clients := delete sampleClientId (clients establishedState);
       sockets := sockets establishedState;
       log := [LogClientError sampleClientId; LogClientError sampleClientId] |}.
Proof.
  apply (error_removes_session sampleConfig 20 1 sampleClientId []
           [] establishedState).
  vm_compute. reflexivity.
Defined.

Lemma idle_timeout_destroys_socket_witness :
  clients (emit sampleConfig 20 1 EvTimeout [] establishedState)
  = clients establishedState /\
  destroyed <$> sockets (emit sampleConfig 20 1 EvTimeout [] establishedState)
                  !! 1 = Some true.
Proof.
  rewrite (idle_timeout_destroys_socket sampleConfig 20 1 sampleClientId []
             [] establishedState) by (vm_compute; reflexivity).
  split; [reflexivity|]. cbn [sockets]. rewrite lookup_insert_eq. reflexivity.
Defined.

Lemma silent_connection_timeout_witness :
  clients (emit sampleConfig 20 2 EvTimeout [] establishedState)
  = clients establishedState /\
  destroyed <$> sockets (emit sampleConfig 20 2 EvTimeout [] establishedState)
                  !! 2 = Some true.
Proof.
  rewrite (silent_connection_timeout sampleConfig 20 2 (js "10.0.0.8:40000")
             [] establishedState) by (vm_compute; reflexivity).
  split; [reflexivity|]. cbn [sockets]. rewrite lookup_insert_eq. reflexivity.
Defined.

Lemma registry_can_exceed_capacity_witness :
  let final :=
    run (mkServerConfig true 2)
      [(1%Z, Connection 2 (js "10.0.0.8:40000"));
       (2%Z, Connection 3 (js "10.0.0.9:40001"));
       (3%Z, SocketEmit 2 EvData heartbeat29);
       (4%Z, SocketEmit 3 EvData heartbeat29)] sampleState in
  size (clients final) = 3.
Proof.
  intros final.
  assert (H : size (clients final) = size (clients sampleState) + 2).
  { apply (registry_can_exceed_capacity (mkServerConfig true 2) 1 2 3 4 2 3
             (js "10.0.0.8:40000") (js "10.0.0.9:40001")
             heartbeat29 heartbeat29 sampleState);
      first [ discriminate | vm_compute; reflexivity ]. }
  rewrite H. vm_compute. reflexivity.
Defined.

(** ** White space around a buffer, and reads that end on a terminator *)

Section BufferWhiteSpace.

Implicit Types (s buffer tl : jsstring) (segs : list jsstring) (c : ascii).

Lemma isWhiteSpace_not_tail c : isWhiteSpace c = true -> c <> TAIL_CHAR.
Proof. intros H ->. discriminate. Qed.

Lemma trim_ws_front c s : isWhiteSpace c = true -> trim (c :: s) = trim s.
Proof. intros H. unfold trim. simpl. rewrite H. reflexivity. Qed.

Lemma trimEnd_ws_back c s : isWhiteSpace c = true -> trimEnd (s ++ [c]) = trimEnd s.
Proof.
  intros H. unfold trimEnd. rewrite rev_app_distr. simpl. rewrite H.
  reflexivity.
Qed.

Lemma trim_ws_back c s : isWhiteSpace c = true -> trim (s ++ [c]) = trim s.
Proof.
  intros H. unfold trim. rewrite trimStart_app.
  destruct (trimStart s) as [|a u] eqn:E.
  - simpl. rewrite H. reflexivity.
  - apply trimEnd_ws_back, H.
Qed.

Lemma keepParts_tail_ws_front c tl :
  isWhiteSpace c = true ->
  keepParts [c :: tl] = keepParts (match tl with [] => [] | _ => [tl] end).
Proof.
  intros H. rewrite keepParts_cons, (trim_ws_front _ _ H).
  destruct tl as [|a tl]; [reflexivity|]. cbv iota.
  rewrite (keepParts_cons (a :: tl) []). reflexivity.
Qed.

Lemma extractMessages_ws_front c s :
  isWhiteSpace c = true -> extractMessages (c :: s) = extractMessages s.
Proof.
  intros H. pose proof (isWhiteSpace_not_tail c H) as Hc.
  destruct (buffer_decompose s) as (segs & tl & Hsegs & Htl & ->).
  destruct segs as [|s1 segs].
  - change (c :: framesBuffer [] ++ tl) with (framesBuffer [] ++ (c :: tl)).
    rewrite !extractMessages_segments; try constructor; try assumption.
    + f_equal. apply keepParts_tail_ws_front, H.
    + apply not_elem_of_cons. split; [congruence|exact Htl].
  - inversion Hsegs as [|? ? Hs1 Hrest]; subst.
    change (c :: framesBuffer (s1 :: segs) ++ tl)
      with (framesBuffer ((c :: s1) :: segs) ++ tl).
    rewrite !extractMessages_segments; try assumption.
    + rewrite !keepParts_cons, (trim_ws_front _ _ H). reflexivity.
    + constructor; [|exact Hrest].
      apply not_elem_of_cons. split; [congruence|exact Hs1].
Qed.

Lemma extractMessages_ws_back c s :
  isWhiteSpace c = true -> extractMessages (s ++ [c]) = extractMessages s.
Proof.
  intros H. pose proof (isWhiteSpace_not_tail c H) as Hc.
  destruct (buffer_decompose s) as (segs & tl & Hsegs & Htl & ->).
  rewrite <- app_assoc.
  rewrite !extractMessages_segments; try assumption.
  - f_equal. destruct tl as [|a tl].
    + change (keepParts [[c]] = keepParts []).
      rewrite keepParts_cons. unfold trim. simpl. rewrite H. reflexivity.
    + change (keepParts [(a :: tl) ++ [c]] = keepParts [a :: tl]).
      rewrite !keepParts_cons, (trim_ws_back _ _ H). reflexivity.
  - intros Hin. apply elem_of_app in Hin as [Hin|Hin]; [auto|].
    apply list_elem_of_singleton in Hin. congruence.
Qed.

Lemma extractMessages_trimStart s :
  extractMessages (trimStart s) = extractMessages s.
Proof.
  induction s as [|c s IH]; [reflexivity|]. simpl.
  destruct (isWhiteSpace c) eqn:E; [|reflexivity].
  rewrite IH. symmetry. apply extractMessages_ws_front, E.
Qed.

Lemma extractMessages_trimEnd s :
  extractMessages (trimEnd s) = extractMessages s.
Proof.
  induction s as [|c s IH] using rev_ind; [reflexivity|].
  destruct (isWhiteSpace c) eqn:E.
  - rewrite (trimEnd_ws_back _ _ E), IH. symmetry.
    apply extractMessages_ws_back, E.
  - unfold trimEnd. rewrite rev_app_distr. simpl. rewrite E.
    simpl. rewrite rev_involutive. reflexivity.
Qed.

Lemma extractMessages_trim_eq s : extractMessages (trim s) = extractMessages s.
Proof.
  unfold trim. rewrite extractMessages_trimEnd. apply extractMessages_trimStart.
Qed.

(** White space around a buffer does not change what is extracted from
    it: trimming the buffer first, as the read handler does, gives the same
    messages. *)
Theorem extractMessages_ignores_outer_space buffer :
  extractMessages (trim buffer) = extractMessages buffer.
Proof. exact (extractMessages_trim_eq buffer). Qed.



End BufferWhiteSpace.

Section ReadsCompose.

Variable config : ServerConfig.

Implicit Types (st : Server) (clientId : jsstring) (now : Z).





End ReadsCompose.

